(** * snapdir: directory snapshot and restore

    A shallow embedding of [cmd/main.go] (the version with ignore patterns,
    permission bits and the size cap) together with the parts of the Go
    standard library its behaviour depends on, on a Unix target
    ([filepath.Separator] is the slash).

    Go strings are byte sequences: they are modelled by [string], whose
    characters are the 256 byte values.  Runes and permission bits are
    integers.  The file system is reached through the interface [Runtime];
    the program is a function of the state of the file system and returns
    the next state with its error.  [logVerbose] writes to the process log
    only and is left out, as is the counter [fileCount] that it prints. *)

From Stdlib Require Import String Ascii List ZArith Bool Lia.
Import ListNotations.

Local Open Scope string_scope.
Local Open Scope Z_scope.

(** ** Bytes and string slicing *)

Module GoString.

Definition byte (c : ascii) : Z := Z.of_N (N_of_ascii c).

(** [s[i]], with 0 outside the string (never reached by the callers). *)
Definition at_ (s : string) (i : nat) : Z :=
  match String.get i s with
  | Some c => byte c
  | None => 0
  end.

(** [s[n:]] *)
Fixpoint from (n : nat) (s : string) : string :=
  match n, s with
  | O, _ => s
  | S n', String _ t => from n' t
  | S _, EmptyString => EmptyString
  end.

Definition is_empty (s : string) : bool :=
  match s with
  | EmptyString => true
  | String _ _ => false
  end.

(** [strings.HasPrefix(s, p)] *)
Fixpoint HasPrefix (s p : string) {struct p} : bool :=
  match p, s with
  | EmptyString, _ => true
  | String a p', String b s' => Ascii.eqb a b && HasPrefix s' p'
  | String _ _, EmptyString => false
  end.

(** [strings.Contains(s, substr)]: some position of [s] starts a copy of
    [substr]. *)
Fixpoint Contains (s substr : string) : bool :=
  HasPrefix s substr
  || match s with
     | EmptyString => false
     | String _ s' => Contains s' substr
     end.

End GoString.
Import GoString.

(** ** unicode/utf8 *)

Module utf8.

Definition RuneError : Z := 0xFFFD.

Definition locb : Z := 0x80.
Definition hicb : Z := 0xBF.
Definition xx : Z := 0xF1.
Definition as_ : Z := 0xF0.
Definition s1 : Z := 0x02.
Definition s2 : Z := 0x13.
Definition s3 : Z := 0x03.
Definition s4 : Z := 0x23.
Definition s5 : Z := 0x34.
Definition s6 : Z := 0x04.
Definition s7 : Z := 0x44.

(** The table [first], by ranges of the leading byte. *)
Definition first (b : Z) : Z :=
  if b <? 0x80 then as_
  else if b <? 0xC2 then xx
  else if b <? 0xE0 then s1
  else if b =? 0xE0 then s2
  else if b <? 0xED then s3
  else if b =? 0xED then s4
  else if b <? 0xF0 then s3
  else if b =? 0xF0 then s5
  else if b <? 0xF4 then s6
  else if b =? 0xF4 then s7
  else xx.

(** The table [acceptRanges]: bounds of the second byte. *)
Definition acceptRanges (i : Z) : Z * Z :=
  if i =? 1 then (0xA0, hicb)
  else if i =? 2 then (locb, 0x9F)
  else if i =? 3 then (0x90, hicb)
  else if i =? 4 then (locb, 0x8F)
  else (locb, hicb).

Definition maskx : Z := 0x3F.
Definition mask2 : Z := 0x1F.
Definition mask3 : Z := 0x0F.
Definition mask4 : Z := 0x07.

(** [utf8.DecodeRuneInString]: the rune and its width in bytes. *)
Definition DecodeRuneInString (s : string) : Z * nat :=
  let n := Z.of_nat (String.length s) in
  if n <? 1 then (RuneError, 0%nat)
  else
    let b0 := at_ s 0 in
    let x := first b0 in
    if as_ <=? x then
      ((if Z.testbit x 0 then RuneError else b0), 1%nat)
    else
      let sz := Z.land x 7 in
      let accept := acceptRanges (Z.shiftr x 4) in
      if n <? sz then (RuneError, 1%nat)
      else
        let b1 := at_ s 1 in
        if (b1 <? fst accept) || (snd accept <? b1) then (RuneError, 1%nat)
        else if sz <=? 2 then
          (Z.lor (Z.shiftl (Z.land b0 mask2) 6) (Z.land b1 maskx), 2%nat)
        else
          let b2 := at_ s 2 in
          if (b2 <? locb) || (hicb <? b2) then (RuneError, 1%nat)
          else if sz <=? 3 then
            (Z.lor (Z.lor (Z.shiftl (Z.land b0 mask3) 12)
                          (Z.shiftl (Z.land b1 maskx) 6))
                   (Z.land b2 maskx), 3%nat)
          else
            let b3 := at_ s 3 in
            if (b3 <? locb) || (hicb <? b3) then (RuneError, 1%nat)
            else
              (Z.lor (Z.lor (Z.lor (Z.shiftl (Z.land b0 mask4) 18)
                                   (Z.shiftl (Z.land b1 maskx) 12))
                            (Z.shiftl (Z.land b2 maskx) 6))
                     (Z.land b3 maskx), 4%nat).

End utf8.

(** ** path/filepath *)

Module filepath.

Definition Separator : ascii := "/"%char.

Definition IsPathSeparator (c : ascii) : bool := Ascii.eqb c Separator.

(** [filepath.ToSlash]: every [Separator] becomes a slash. *)
Fixpoint ToSlash (path : string) : string :=
  match path with
  | EmptyString => EmptyString
  | String c t =>
      String (if Ascii.eqb c Separator then "/"%char else c) (ToSlash t)
  end.

(** [filepath.FromSlash]: every slash becomes [Separator]. *)
Fixpoint FromSlash (path : string) : string :=
  match path with
  | EmptyString => EmptyString
  | String c t =>
      String (if Ascii.eqb c "/"%char then Separator else c) (FromSlash t)
  end.

Fixpoint hasSeparator (s : string) : bool :=
  match s with
  | EmptyString => false
  | String c t => IsPathSeparator c || hasSeparator t
  end.

(** The first loop of [Base]: drop the trailing separators. *)
Fixpoint stripTrailing (path : string) : string :=
  match path with
  | EmptyString => EmptyString
  | String c t =>
      let t' := stripTrailing t in
      if IsPathSeparator c && is_empty t' then EmptyString else String c t'
  end.

(** The second loop of [Base]: what follows the last separator. *)
Fixpoint lastElement (path : string) : string :=
  match path with
  | EmptyString => EmptyString
  | String c t =>
      if hasSeparator t then lastElement t
      else if IsPathSeparator c then t
      else path
  end.

(** [filepath.Base]; the volume name is empty on Unix. *)
Definition Base (path : string) : string :=
  if is_empty path then "."
  else
    let path := lastElement (stripTrailing path) in
    if is_empty path then String Separator EmptyString else path.

(** *** [filepath.Match] *)

(** A result that is either a value or [ErrBadPattern]. *)
Inductive result (A : Type) : Type :=
| Ok (a : A)
| ErrBadPattern.
Arguments Ok {A} a.
Arguments ErrBadPattern {A}.

(** Leading stars of [scanChunk]. *)
Fixpoint skipStars (pattern : string) : bool * string :=
  match pattern with
  | String c t =>
      if Ascii.eqb c "*"%char then (true, snd (skipStars t))
      else (false, pattern)
  | EmptyString => (false, pattern)
  end.

(** The [Scan] loop of [scanChunk]: the chunk up to the first star that is
    not inside a character class, and what follows. *)
Fixpoint scanLoop (inrange : bool) (pattern : string) : string * string :=
  match pattern with
  | EmptyString => (EmptyString, EmptyString)
  | String c t =>
      if Ascii.eqb c "\"%char then
        match t with
        | String c' t' =>
            let '(chunk, rest) := scanLoop inrange t' in
            (String c (String c' chunk), rest)
        | EmptyString => (String c EmptyString, EmptyString)
        end
      else if Ascii.eqb c "["%char then
        let '(chunk, rest) := scanLoop true t in (String c chunk, rest)
      else if Ascii.eqb c "]"%char then
        let '(chunk, rest) := scanLoop false t in (String c chunk, rest)
      else if Ascii.eqb c "*"%char && negb inrange then
        (EmptyString, pattern)
      else
        let '(chunk, rest) := scanLoop inrange t in (String c chunk, rest)
  end.

Definition scanChunk (pattern : string) : bool * string * string :=
  let '(star, pattern) := skipStars pattern in
  let '(chunk, rest) := scanLoop false pattern in
  (star, chunk, rest).

(** [getEsc]: a possibly escaped rune of a character class and the rest of
    the chunk.  Every path on which the Go function sets [err] is an
    [ErrBadPattern] here, since the callers return on [err] at once. *)
Definition getEsc (chunk : string) : result (Z * string) :=
  match chunk with
  | EmptyString => ErrBadPattern
  | String c t =>
      if Ascii.eqb c "-"%char || Ascii.eqb c "]"%char then ErrBadPattern
      else
        let escaped := Ascii.eqb c "\"%char in
        if escaped && is_empty t then ErrBadPattern
        else
          let chunk := if escaped then t else chunk in
          let '(r, n) := utf8.DecodeRuneInString chunk in
          if (r =? utf8.RuneError) && Nat.eqb n 1 then ErrBadPattern
          else
            let nchunk := from n chunk in
            if is_empty nchunk then ErrBadPattern else Ok (r, nchunk)
  end.

(** The range loop of a character class.  [fuel] bounds the number of
    ranges; any fuel above the length of the chunk gives the same result
    (see [classLoop_fuel]). *)
Fixpoint classLoop (fuel : nat) (chunk : string) (r : Z) (matched : bool)
         (nrange : nat) : result (string * bool) :=
  match fuel with
  | O => ErrBadPattern
  | S fuel' =>
      if HasPrefix chunk "]" && Nat.ltb 0 nrange then
        Ok (from 1 chunk, matched)
      else
        match getEsc chunk with
        | ErrBadPattern => ErrBadPattern
        | Ok (lo, chunk1) =>
            if HasPrefix chunk1 "-" then
              match getEsc (from 1 chunk1) with
              | ErrBadPattern => ErrBadPattern
              | Ok (hi, chunk2) =>
                  classLoop fuel' chunk2 r
                            (matched || ((lo <=? r) && (r <=? hi)))
                            (S nrange)
              end
            else
              classLoop fuel' chunk1 r
                        (matched || ((lo <=? r) && (r <=? lo)))
                        (S nrange)
        end
  end.

(** The loop of [matchChunk]; [Ok (Some rest)] is a match that leaves
    [rest], [Ok None] is no match.  [fuel] bounds the number of operators;
    any fuel above the length of the chunk gives the same result
    (see [matchChunkLoop_fuel]). *)
Fixpoint matchChunkLoop (fuel : nat) (chunk s : string) (failed : bool)
  : result (option string) :=
  match fuel with
  | O => ErrBadPattern
  | S fuel' =>
      match chunk with
      | EmptyString => Ok (if failed then None else Some s)
      | String c t =>
          let failed := failed || is_empty s in
          let literal c t :=
            if failed then matchChunkLoop fuel' t s failed
            else
              matchChunkLoop fuel' t (from 1 s)
                             (negb (byte c =? at_ s 0)) in
          if Ascii.eqb c "["%char then
            let '(r, s) :=
              if failed then (0, s)
              else
                let '(r, n) := utf8.DecodeRuneInString s in (r, from n s) in
            let negated := HasPrefix t "^" in
            let t := if negated then from 1 t else t in
            match classLoop fuel' t r false 0 with
            | ErrBadPattern => ErrBadPattern
            | Ok (t, matched) =>
                matchChunkLoop fuel' t s
                               (failed || Bool.eqb matched negated)
            end
          else if Ascii.eqb c "?"%char then
            if failed then matchChunkLoop fuel' t s failed
            else
              let '(_, n) := utf8.DecodeRuneInString s in
              matchChunkLoop fuel' t (from n s)
                             (at_ s 0 =? byte Separator)
          else if Ascii.eqb c "\"%char then
            match t with
            | EmptyString => ErrBadPattern
            | String c' t' => literal c' t'
            end
          else literal c t
      end
  end.

Definition matchChunk (chunk s : string) : result (option string) :=
  matchChunkLoop (S (String.length chunk)) chunk s false.

(** What the star loop of [Match] finds. *)
Inductive star_search : Type :=
| Found (t : string)
| Bad
| NotFound.

(** The loop over [i] of [Match]: try the chunk after skipping [i+1]
    bytes, never past a separator.  [last] says that the pattern is
    exhausted after this chunk. *)
Fixpoint starLoop (chunk : string) (last : bool) (name : string)
  : star_search :=
  match name with
  | EmptyString => NotFound
  | String c name' =>
      if IsPathSeparator c then NotFound
      else
        match matchChunk chunk name' with
        | Ok (Some t) =>
            if last && negb (is_empty t) then starLoop chunk last name'
            else Found t
        | ErrBadPattern => Bad
        | Ok None => starLoop chunk last name'
        end
  end.

(** The final loop of [Match]: the rest of the pattern is checked for
    syntax before a mismatch is reported.  Any fuel above the length of the
    pattern gives the same result, here and in [MatchLoop]
    (see [MatchLoop_fuel]). *)
Fixpoint checkRest (fuel : nat) (pattern : string) : result bool :=
  match fuel with
  | O => Ok false
  | S fuel' =>
      if is_empty pattern then Ok false
      else
        let '(_, chunk, rest) := scanChunk pattern in
        match matchChunk chunk "" with
        | ErrBadPattern => ErrBadPattern
        | Ok _ => checkRest fuel' rest
        end
  end.

Fixpoint MatchLoop (fuel : nat) (pattern name : string) : result bool :=
  match fuel with
  | O => ErrBadPattern
  | S fuel' =>
      if is_empty pattern then Ok (is_empty name)
      else
        let '(star, chunk, rest) := scanChunk pattern in
        if star && is_empty chunk then
          Ok (negb (Contains name (String Separator EmptyString)))
        else
          let mismatch :=
            if star then
              match starLoop chunk (is_empty rest) name with
              | Found t => MatchLoop fuel' rest t
              | Bad => ErrBadPattern
              | NotFound => checkRest fuel' rest
              end
            else checkRest fuel' rest in
          match matchChunk chunk name with
          | Ok (Some t) =>
              if is_empty t || negb (is_empty rest)
              then MatchLoop fuel' rest t
              else mismatch
          | ErrBadPattern => ErrBadPattern
          | Ok None => mismatch
          end
  end.

(** [filepath.Match(pattern, name)] *)
Definition Match (pattern name : string) : result bool :=
  MatchLoop (S (String.length pattern)) pattern name.

End filepath.
Import filepath.

(** ** Ignore rules *)

(** [shouldIgnore]: the first pattern that matches the base name as a glob, or
    that the slash form of the path contains, decides; a pattern that
    [filepath.Match] rejects is logged and skipped by [continue], before its
    substring test. *)
Fixpoint shouldIgnore (path : string) (patterns : list string) : bool :=
  match patterns with
  | [] => false
  | pattern :: patterns' =>
      match Match pattern (Base path) with
      | ErrBadPattern => shouldIgnore path patterns'
      | Ok matched =>
          if matched then true
          else if Contains (ToSlash path) pattern then true
          else shouldIgnore path patterns'
      end
  end.

(** ** The snapshot model *)

Definition version : string := "1.0.0".
Definition defaultPerms : Z := 420.   (* 0644 *)
Definition dirPerms : Z := 493.       (* 0755 *)
Definition maxFileSize : Z := 100 * 1024 * 1024.

(** [FileInfo]: one file or directory of the snapshot.  [Mode] is a
    [uint32]. *)
Record FileInfo : Type := mkFileInfo {
  Path : string;
  Contents : string;
  IsDir : bool;
  Mode : Z
}.

(** [ProjectSnapshot].  [Files] is a slice: [None] is the nil slice, which
    Go tells apart from an empty one. *)
Record ProjectSnapshot : Type := mkProjectSnapshot {
  Version : string;
  Files : option (list FileInfo)
}.

Definition uint32_range (n : Z) : bool := (0 <=? n) && (n <? 2 ^ 32).

(** ** encoding/json, for the two struct types *)

Module json.

(** The document: the JSON value that [json.MarshalIndent] renders and
    [json.Unmarshal] parses.  Indentation and string escapes are the
    lexical layer of the library; they vanish in the value. *)
#[local] Unset Elimination Schemes.
Inductive value : Type :=
| Null
| Bool (b : bool)
| Number (n : Z)              (* an integer literal *)
| Fraction                    (* any other number literal *)
| Str (s : string)
| Array (elems : list value)
| Object (members : list (string * value)).
#[local] Set Elimination Schemes.

Inductive error : Type :=
| SyntaxError
| UnmarshalTypeError.

(** [s[:n]] *)
Fixpoint upto (n : nat) (s : string) : string :=
  match n, s with
  | S n', String c t => String c (upto n' t)
  | _, _ => EmptyString
  end.

(** U+FFFD in UTF-8. *)
Definition replacement : string :=
  String (ascii_of_nat 239) (String (ascii_of_nat 191)
    (String (ascii_of_nat 189) EmptyString)).

(** What the encoder makes of a Go string: each byte that does not start
    a well-formed UTF-8 sequence is written as [\ufffd]. *)
Fixpoint coerceLoop (fuel : nat) (s : string) : string :=
  match fuel with
  | O => EmptyString
  | S fuel' =>
      if is_empty s then EmptyString
      else
        let '(r, n) := utf8.DecodeRuneInString s in
        if (r =? utf8.RuneError) && Nat.eqb n 1
        then replacement ++ coerceLoop fuel' (from 1 s)
        else upto n s ++ coerceLoop fuel' (from n s)
  end.

Definition coerce (s : string) : string := coerceLoop (String.length s) s.

(** [utf8.ValidString] *)
Fixpoint validLoop (fuel : nat) (s : string) : bool :=
  match fuel with
  | O => is_empty s
  | S fuel' =>
      if is_empty s then true
      else
        let '(r, n) := utf8.DecodeRuneInString s in
        if (r =? utf8.RuneError) && Nat.eqb n 1 then false
        else validLoop fuel' (from n s)
  end.

Definition ValidString (s : string) : bool := validLoop (String.length s) s.

(** *** Marshal: fields in declaration order, [omitempty] fields left out
    when they hold the zero value. *)

Definition encodeFileInfo (f : FileInfo) : value :=
  Object
    ([("path", Str (coerce (Path f)))]
       ++ (if is_empty (Contents f) then []
           else [("contents", Str (coerce (Contents f)))])
       ++ [("is_dir", Bool (IsDir f))]
       ++ (if Mode f =? 0 then [] else [("mode", Number (Mode f))])).

Definition encodeFiles (files : option (list FileInfo)) : value :=
  match files with
  | None => Null
  | Some l => Array (map encodeFileInfo l)
  end.

Definition encode (s : ProjectSnapshot) : value :=
  Object [("version", Str (coerce (Version s)));
          ("files", encodeFiles (Files s))].

(** *** Unmarshal *)

(** The folded form of an object key, as far as it matters for ASCII field
    names: ASCII letters in upper case, and the two other runes that fold
    to an ASCII letter, U+017F to S and U+212A to K. *)
Fixpoint foldName (key : string) : string :=
  match key with
  | EmptyString => EmptyString
  | String c t =>
      let b := byte c in
      let upper :=
        if (0x61 <=? b) && (b <=? 0x7A) then ascii_of_N (Z.to_N (b - 32))
        else c in
      match t with
      | String c1 t1 =>
          if (b =? 0xC5) && (byte c1 =? 0xBF) then
            String "S"%char (foldName t1)
          else
            match t1 with
            | String c2 t2 =>
                if (b =? 0xE2) && (byte c1 =? 0x84) && (byte c2 =? 0xAA)
                then String "K"%char (foldName t2)
                else String upper (foldName t)
            | EmptyString => String upper (foldName t)
            end
      | EmptyString => String upper EmptyString
      end
  end.

(** A key names a field when it equals the field's name, or is equal to it
    under folding. *)
Definition names (key field : string) : bool :=
  String.eqb key field || String.eqb (foldName key) (foldName field).

Definition decodeString (cur : string) (v : value) : error + string :=
  match v with
  | Str s => inr s
  | Null => inr cur
  | _ => inl UnmarshalTypeError
  end.

Definition decodeBool (cur : bool) (v : value) : error + bool :=
  match v with
  | Bool b => inr b
  | Null => inr cur
  | _ => inl UnmarshalTypeError
  end.

Definition decodeUint32 (cur : Z) (v : value) : error + Z :=
  match v with
  | Number n => if uint32_range n then inr n else inl UnmarshalTypeError
  | Null => inr cur
  | _ => inl UnmarshalTypeError
  end.

(** One member of an object decoded into a [FileInfo]; an unknown key is
    skipped. *)
Definition decodeFileInfoMember (cur : FileInfo) (m : string * value)
  : error + FileInfo :=
  let '(key, v) := m in
  if names key "path" then
    match decodeString (Path cur) v with
    | inr s => inr (mkFileInfo s (Contents cur) (IsDir cur) (Mode cur))
    | inl e => inl e
    end
  else if names key "contents" then
    match decodeString (Contents cur) v with
    | inr s => inr (mkFileInfo (Path cur) s (IsDir cur) (Mode cur))
    | inl e => inl e
    end
  else if names key "is_dir" then
    match decodeBool (IsDir cur) v with
    | inr b => inr (mkFileInfo (Path cur) (Contents cur) b (Mode cur))
    | inl e => inl e
    end
  else if names key "mode" then
    match decodeUint32 (Mode cur) v with
    | inr n => inr (mkFileInfo (Path cur) (Contents cur) (IsDir cur) n)
    | inl e => inl e
    end
  else inr cur.

(** Members are decoded in document order into the value built so far, so
    a repeated key overrides. *)
Fixpoint decodeMembers {A : Type} (member : A -> string * value -> error + A)
         (cur : A) (members : list (string * value)) : error + A :=
  match members with
  | [] => inr cur
  | m :: rest =>
      match member cur m with
      | inr cur' => decodeMembers member cur' rest
      | inl e => inl e
      end
  end.

Definition zeroFileInfo : FileInfo := mkFileInfo "" "" false 0.

Definition decodeFileInfo (v : value) : error + FileInfo :=
  match v with
  | Object members => decodeMembers decodeFileInfoMember zeroFileInfo members
  | Null => inr zeroFileInfo
  | _ => inl UnmarshalTypeError
  end.

Fixpoint decodeElems (elems : list value) : error + list FileInfo :=
  match elems with
  | [] => inr []
  | v :: rest =>
      match decodeFileInfo v with
      | inl e => inl e
      | inr f =>
          match decodeElems rest with
          | inl e => inl e
          | inr fs => inr (f :: fs)
          end
      end
  end.

(** A slice field: [null] gives the nil slice, an array a slice of its
    elements, each decoded into a zero [FileInfo]. *)
Definition decodeFiles (v : value) : error + option (list FileInfo) :=
  match v with
  | Null => inr None
  | Array elems =>
      match decodeElems elems with
      | inr fs => inr (Some fs)
      | inl e => inl e
      end
  | _ => inl UnmarshalTypeError
  end.

Definition decodeSnapshotMember (cur : ProjectSnapshot) (m : string * value)
  : error + ProjectSnapshot :=
  let '(key, v) := m in
  if names key "version" then
    match decodeString (Version cur) v with
    | inr s => inr (mkProjectSnapshot s (Files cur))
    | inl e => inl e
    end
  else if names key "files" then
    match decodeFiles v with
    | inr fs => inr (mkProjectSnapshot (Version cur) fs)
    | inl e => inl e
    end
  else inr cur.

Definition zeroSnapshot : ProjectSnapshot := mkProjectSnapshot "" None.

(** Decoding into [var snapshot ProjectSnapshot]. *)
Definition decode (v : value) : error + ProjectSnapshot :=
  match v with
  | Object members =>
      decodeMembers decodeSnapshotMember zeroSnapshot members
  | Null => inr zeroSnapshot
  | _ => inl UnmarshalTypeError
  end.

End json.

(** ** The operating system and the rest of the library *)

(** Errors of system calls ([*fs.PathError] and the like). *)
Inductive oserr : Type :=
| ErrNotExist
| ErrPermission
| ErrExist
| ErrOther (code : Z).

(** [os.IsNotExist] *)
Definition IsNotExist (e : oserr) : bool :=
  match e with
  | ErrNotExist => true
  | _ => false
  end.

(** What [os.Stat] and [DirEntry.Info] report, as far as the program looks:
    [IsDir()], [Size()] and [Mode().Perm()]. *)
Record FileStat : Type := mkFileStat {
  StatIsDir : bool;
  Size : Z;
  Perm : Z
}.

(** What [filepath.WalkDir] meets at and below a path: for each entry its
    name, the result of [Info()], and for a directory the entries
    [os.ReadDir] lists (in its order) with its error if any, for anything
    else the result of [os.ReadFile] on it.  [IsDir()] of an entry is its
    constructor. *)
#[local] Unset Elimination Schemes.
Inductive node : Type :=
| File (name : string) (info : oserr + FileStat) (data : oserr + string)
| Dir (name : string) (info : oserr + FileStat) (entries : list node)
      (readdir : option oserr).
#[local] Set Elimination Schemes.

Definition Name (d : node) : string :=
  match d with
  | File name _ _ => name
  | Dir name _ _ _ => name
  end.

Definition NodeIsDir (d : node) : bool :=
  match d with
  | File _ _ _ => false
  | Dir _ _ _ _ => true
  end.

Definition Info (d : node) : oserr + FileStat :=
  match d with
  | File _ info _ => info
  | Dir _ info _ _ => info
  end.

(** [os.ReadFile] on the path of an entry; on a directory it fails with
    EISDIR. *)
Definition Data (d : node) : oserr + string :=
  match d with
  | File _ _ data => data
  | Dir _ _ _ _ => inl (ErrOther 21)
  end.

(** [fileInfo.Contents = string(data)] *)
Definition withContents (f : FileInfo) (data : string) : FileInfo :=
  mkFileInfo (Path f) data (IsDir f) (Mode f).

(** The system calls and library functions the program is written against.
    Calls that only read are functions of the file-system state; [WriteFile]
    and [MkdirAll] return the next state, also when they fail.  Nothing is
    assumed about any of them. *)
Class Runtime : Type := {
  fs : Type;
  Stat : fs -> string -> oserr + FileStat;
  ReadFile : fs -> string -> oserr + string;
  (** [os.Open] followed by a [bufio.Scanner]: the lines it yields. *)
  OpenLines : fs -> string -> oserr + list string;
  (** [os.Lstat] of the root of a walk and what lies below it. *)
  Lstat : fs -> string -> oserr + node;
  WriteFile : fs -> string -> string -> Z -> fs * option oserr;
  MkdirAll : fs -> string -> Z -> fs * option oserr;
  Join : string -> string -> string;
  Dir_ : string -> string;
  TrimSpace : string -> string;
  (** The lexical layer of encoding/json. *)
  render : json.value -> string;
  parse : string -> option json.value
}.

(** The errors the program builds with [fmt.Errorf]. *)
Inductive error : Type :=
| PathEmpty
| PathNotExist (path : string)
| CannotAccess (path : string) (e : oserr)
| InvalidSource (e : error)
| StatSourceFailed (e : oserr)
| SourceNotDir (source : string)
| ErrorAccessing (path : string) (e : oserr)
| InfoFailed (path : string) (e : oserr)
| ReadFailed (path : string) (e : oserr)
| WriteOutputFailed (e : oserr)
| InvalidConfig (e : error)
| ReadConfigFailed (e : oserr)
| ParseFailed (e : json.error)
| DestinationExists (destination : string)
| CreateDestinationFailed (e : oserr)
| CreateDirFailed (path : string) (e : oserr)
| CreateParentFailed (path : string) (e : oserr)
| WriteFileFailed (path : string) (e : oserr).

(** What the callback of the walk returns: [nil], [filepath.SkipDir], or an
    error. *)
Inductive step : Type :=
| Continue
| SkipDir
| Fail (e : error).

Section Program.

Context {rt : Runtime}.

(** [json.Unmarshal(data, &snapshot)] *)
Definition Unmarshal (data : string) : json.error + ProjectSnapshot :=
  match parse data with
  | None => inl json.SyntaxError
  | Some v => json.decode v
  end.

(** [json.MarshalIndent(snapshot, "", jsonIndent)]; it cannot fail on a
    struct of strings, booleans and integers. *)
Definition MarshalIndent (snapshot : ProjectSnapshot) : string :=
  render (json.encode snapshot).

(** *** [loadGitignore] *)

Fixpoint scanPatterns (lines : list string) : list string :=
  match lines with
  | [] => []
  | text :: rest =>
      let line := TrimSpace text in
      if is_empty line || HasPrefix line "#" then scanPatterns rest
      else line :: scanPatterns rest
  end.

Definition loadGitignore (st : fs) (source : string) : list string :=
  let patterns := [".git"] in
  let gitignorePath := Join source ".gitignore" in
  match OpenLines st gitignorePath with
  | inl _ => patterns
  | inr lines => (patterns ++ scanPatterns lines)%list
  end.

(** *** [validatePath] *)

Definition validatePath (st : fs) (path : string) (mustExist : bool)
  : option error :=
  if is_empty path then Some PathEmpty
  else if mustExist then
    match Stat st path with
    | inl e =>
        if IsNotExist e then Some (PathNotExist path)
        else Some (CannotAccess path e)
    | inr _ => None
    end
  else None.

(** *** The walk of [cloneProject] *)

(** [filepath.Rel(source, path)] for the path of an entry reached by the
    walk: ["."] at the root, below it the names from the root down joined
    by the separator.  [rel] is the relative path of the directory and
    [name] the entry's name. *)
Definition relJoin (rel name : string) : string :=
  if String.eqb rel "." then name
  else rel ++ String Separator name.

(** The callback given to [filepath.WalkDir], with the snapshot's [Files]
    it appends to as state.  [path] is the path the walk passes, [relPath]
    its form relative to the source, [d] the entry and [err] the walk's
    error. *)
Definition walkFn (patterns : list string) (path relPath : string)
           (d : node) (err : option oserr) (files : list FileInfo)
  : list FileInfo * step :=
  match err with
  | Some e => (files, Fail (ErrorAccessing path e))
  | None =>
      if String.eqb relPath "." then (files, Continue)
      else if shouldIgnore relPath patterns then
        if NodeIsDir d then (files, SkipDir) else (files, Continue)
      else
        match Info d with
        | inl e => (files, Fail (InfoFailed path e))
        | inr info =>
            let fileInfo :=
              mkFileInfo (ToSlash relPath) "" (NodeIsDir d) (Perm info) in
            if negb (NodeIsDir d) then
              if maxFileSize <? Size info then (files, Continue)
              else
                match Data d with
                | inl e => (files, Fail (ReadFailed path e))
                | inr data =>
                    ((files ++ [withContents fileInfo data])%list, Continue)
                end
            else ((files ++ [fileInfo])%list, Continue)
        end
  end.

(** The loop of [walkDir] over the entries of a directory, given the walk
    of one entry: [SkipDir] from an entry ends the loop, an error ends the
    walk. *)
Fixpoint walkEntries
         (walk : string -> string -> node -> list FileInfo
                 -> list FileInfo * step)
         (path rel : string) (entries : list node) (files : list FileInfo)
  : list FileInfo * step :=
  match entries with
  | [] => (files, Continue)
  | d1 :: rest =>
      match walk (Join path (Name d1)) (relJoin rel (Name d1)) d1 files with
      | (files', Continue) => walkEntries walk path rel rest files'
      | (files', SkipDir) => (files', Continue)
      | (files', Fail e) => (files', Fail e)
      end
  end.

(** [walkDir] of path/filepath with [walkFn] as its function. *)
Fixpoint walkDir (patterns : list string) (path rel : string) (d : node)
         (files : list FileInfo) {struct d} : list FileInfo * step :=
  match walkFn patterns path rel d None files with
  | (files1, Continue) =>
      match d with
      | File _ _ _ => (files1, Continue)
      | Dir _ _ entries readdir =>
          let loop files :=
            (fix loop (entries : list node) (files : list FileInfo)
               : list FileInfo * step :=
               match entries with
               | [] => (files, Continue)
               | d1 :: rest =>
                   match walkDir patterns (Join path (Name d1))
                                 (relJoin rel (Name d1)) d1 files with
                   | (files', Continue) => loop rest files'
                   | (files', SkipDir) => (files', Continue)
                   | (files', Fail e) => (files', Fail e)
                   end
               end) entries files in
          match readdir with
          | None => loop files1
          | Some e =>
              (* the second call, to report the error of ReadDir *)
              match walkFn patterns path rel d (Some e) files1 with
              | (files2, Continue) => loop files2
              | (files2, SkipDir) => (files2, Continue)
              | (files2, Fail e') => (files2, Fail e')
              end
          end
      end
  | (files1, SkipDir) =>
      if NodeIsDir d then (files1, Continue) else (files1, SkipDir)
  | (files1, Fail e) => (files1, Fail e)
  end.

(** [filepath.WalkDir(source, walkFn)]: the files collected and the error
    returned.  When [Lstat] of the root fails the function is called once
    with that error and no entry, and [walkFn] returns at its first
    test. *)
Definition WalkDir (patterns : list string) (st : fs) (source : string)
  : list FileInfo * option error :=
  match Lstat st source with
  | inl e => ([], Some (ErrorAccessing source e))
  | inr d =>
      match walkDir patterns source "." d [] with
      | (files, Fail e) => (files, Some e)
      | (files, _) => (files, None)
      end
  end.

(** *** [cloneProject]

    [ignorePatterns] is the global set from the command line. *)
Definition cloneProject (ignorePatterns : list string)
           (source outputFile : string) (st : fs) : fs * option error :=
  match validatePath st source true with
  | Some e => (st, Some (InvalidSource e))
  | None =>
      match Stat st source with
      | inl e => (st, Some (StatSourceFailed e))
      | inr sourceInfo =>
          if negb (StatIsDir sourceInfo) then (st, Some (SourceNotDir source))
          else
            let patterns := (loadGitignore st source ++ ignorePatterns)%list in
            match WalkDir patterns st source with
            | (_, Some e) => (st, Some e)
            | (files, None) =>
                let snapshot := mkProjectSnapshot version (Some files) in
                let jsonData := MarshalIndent snapshot in
                match WriteFile st outputFile jsonData defaultPerms with
                | (st', Some e) => (st', Some (WriteOutputFailed e))
                | (st', None) => (st', None)
                end
            end
      end
  end.

(** *** [restoreProject] *)

(** The body of the loop over [snapshot.Files], for one entry. *)
Definition restoreFile (destination : string) (file : FileInfo) (st : fs)
  : fs * option error :=
  let path := Join destination (FromSlash (Path file)) in
  if IsDir file then
    match MkdirAll st path (Mode file) with
    | (st', Some e) => (st', Some (CreateDirFailed (Path file) e))
    | (st', None) => (st', None)
    end
  else
    let parentDir := Dir_ path in
    match MkdirAll st parentDir dirPerms with
    | (st', Some e) => (st', Some (CreateParentFailed (Path file) e))
    | (st', None) =>
        let mode := if Mode file =? 0 then defaultPerms else Mode file in
        match WriteFile st' path (Contents file) mode with
        | (st'', Some e) => (st'', Some (WriteFileFailed (Path file) e))
        | (st'', None) => (st'', None)
        end
    end.

Fixpoint restoreFiles (destination : string) (files : list FileInfo)
         (st : fs) : fs * option error :=
  match files with
  | [] => (st, None)
  | file :: rest =>
      match restoreFile destination file st with
      | (st', Some e) => (st', Some e)
      | (st', None) => restoreFiles destination rest st'
      end
  end.

(** Ranging over a slice: the nil slice has no elements. *)
Definition elements {A : Type} (s : option (list A)) : list A :=
  match s with
  | None => []
  | Some l => l
  end.

(** What [restoreProject] does once the snapshot is decoded. *)
Definition materialize (snapshot : ProjectSnapshot) (destination : string)
           (st : fs) : fs * option error :=
  match Stat st destination with
  | inr _ => (st, Some (DestinationExists destination))
  | inl _ =>
      match MkdirAll st destination dirPerms with
      | (st', Some e) => (st', Some (CreateDestinationFailed e))
      | (st', None) =>
          restoreFiles destination (elements (Files snapshot)) st'
      end
  end.

Definition restoreProject (configFile destination : string) (st : fs)
  : fs * option error :=
  match validatePath st configFile true with
  | Some e => (st, Some (InvalidConfig e))
  | None =>
      match ReadFile st configFile with
      | inl e => (st, Some (ReadConfigFailed e))
      | inr data =>
          match Unmarshal data with
          | inl e => (st, Some (ParseFailed e))
          | inr snapshot => materialize snapshot destination st
          end
      end
  end.

End Program.

(** ** Properties stated about the program *)

(** The ignore rule as the specification words it: a path is ignored exactly
    when some pattern glob-matches its base name or some pattern occurs in
    its slash form. *)
Definition ignore_rule_as_specified (p : string) (P : list string) : Prop :=
  shouldIgnore p P = true <->
  (exists pat, In pat P /\ Match pat (Base p) = Ok true) \/
  (exists pat, In pat P /\ Contains (ToSlash p) pat = true).

(** A snapshot that the document format can carry: its strings are text
    (valid UTF-8) and its modes fit a [uint32]. *)
Definition wellFormedFile (f : FileInfo) : Prop :=
  json.ValidString (Path f) = true /\
  json.ValidString (Contents f) = true /\
  uint32_range (Mode f) = true.

Definition wellFormed (s : ProjectSnapshot) : Prop :=
  json.ValidString (Version s) = true /\
  Forall wellFormedFile (elements (Files s)).

(** The member of an encoded object with a given key. *)
Fixpoint member (key : string) (members : list (string * json.value))
  : option json.value :=
  match members with
  | [] => None
  | (k, v) :: rest => if String.eqb k key then Some v else member key rest
  end.

Definition field (key : string) (v : json.value) : option json.value :=
  match v with
  | json.Object members => member key members
  | _ => None
  end.


(** [entered P rel info]: the walk lists the directory at [rel], which is
    the root or a directory that is kept. *)
Definition entered (P : list string) (rel : string) (info : oserr + FileStat)
  : Prop :=
  rel = "." \/ (shouldIgnore rel P = false /\ exists i, info = inr i).

(** [Fault P path rel d p]: in the tree [d] at [path], an entry at path [p]
    that is not ignored, nor below an ignored directory, has an I/O error:
    its [Info()] fails, or it is a file within the size cap whose read
    fails, or it is a directory whose listing fails. *)
Inductive Fault (P : list string) {rt : Runtime}
  : string -> string -> node -> string -> Prop :=
| Fault_info path rel d e :
    rel <> "." -> shouldIgnore rel P = false -> Info d = inl e ->
    Fault P path rel d path
| Fault_read path rel name info e :
    rel <> "." -> shouldIgnore rel P = false ->
    Size info <= maxFileSize ->
    Fault P path rel (File name (inr info) (inl e)) path
| Fault_readdir path rel name info entries e :
    entered P rel info ->
    Fault P path rel (Dir name info entries (Some e)) path
| Fault_entry path rel name info entries readdir d1 p :
    entered P rel info -> In d1 entries ->
    Fault P (Join path (Name d1)) (relJoin rel (Name d1)) d1 p ->
    Fault P path rel (Dir name info entries readdir) p.

(** An I/O error met by the walk from [source]: [Lstat] of the root fails,
    or there is a fault below it. *)
Definition WalkFault {rt : Runtime} (P : list string) (st : fs)
           (source p : string) : Prop :=
  match Lstat st source with
  | inl _ => p = source
  | inr d => Fault P source "." d p
  end.

(** An error of the walk that names the path [p]. *)
Definition identifies (e : error) (p : string) : Prop :=
  exists oe, e = ErrorAccessing p oe \/ e = InfoFailed p oe
             \/ e = ReadFailed p oe.

(** ** A scripted runtime

    A runtime whose file-system state is the log of the writes made so far;
    what the reads return is fixed by a script.  It serves to run the
    program on concrete inputs. *)

Module Scripted.

Inductive op : Type :=
| OpWriteFile (path data : string) (perm : Z)
| OpMkdirAll (path : string) (perm : Z).

Record script : Type := mkScript {
  onStat : string -> oserr + FileStat;
  onReadFile : string -> oserr + string;
  onOpen : string -> oserr + list string;
  onLstat : string -> oserr + node;
  onParse : string -> option json.value
}.

Definition runtime (sc : script) : Runtime := {|
  fs := list op;
  Stat := fun _ p => onStat sc p;
  ReadFile := fun _ p => onReadFile sc p;
  OpenLines := fun _ p => onOpen sc p;
  Lstat := fun _ p => onLstat sc p;
  WriteFile := fun log p data perm =>
                 ((log ++ [OpWriteFile p data perm])%list, None);
  MkdirAll := fun log p perm => ((log ++ [OpMkdirAll p perm])%list, None);
  Join := fun a b => a ++ String Separator b;
  Dir_ := fun p => p ++ "/..";
  TrimSpace := fun s => s;
  render := fun _ => "{}";
  parse := onParse sc
|}.

Definition absent : oserr + FileStat := inl ErrNotExist.
Definition regular (size : Z) : oserr + FileStat :=
  inr (mkFileStat false size 420).
Definition directory : oserr + FileStat := inr (mkFileStat true 4096 493).

(** A snapshot file [snapshot.json] holding one directory entry [d]
    without a mode, and a destination [out] that does not exist. *)
Definition dirWithoutMode : script := {|
  onStat := fun p => if String.eqb p "snapshot.json" then regular 64
                     else absent;
  onReadFile := fun p => if String.eqb p "snapshot.json" then inr "doc"
                         else inl ErrNotExist;
  onOpen := fun _ => inl ErrNotExist;
  onLstat := fun _ => inl ErrNotExist;
  onParse := fun _ =>
    Some (json.Object
            [("version", json.Str "1.0.0");
             ("files", json.Array
                         [json.Object [("path", json.Str "d");
                                       ("is_dir", json.Bool true)]])])
|}.

(** The same snapshot file, where [Stat] of every other path answers as
    [other] says. *)
Definition withDestination (other : oserr + FileStat) : script := {|
  onStat := fun p => if String.eqb p "snapshot.json" then regular 64
                     else other;
  onReadFile := onReadFile dirWithoutMode;
  onOpen := onOpen dirWithoutMode;
  onLstat := onLstat dirWithoutMode;
  onParse := onParse dirWithoutMode
|}.

(** A source directory [src] with the given entries, whose .gitignore
    opens as [gitignore] says. *)
Definition source (gitignore : oserr + list string) (entries : list node)
  : script := {|
  onStat := fun p => if String.eqb p "src" then directory else absent;
  onReadFile := fun _ => inl ErrNotExist;
  onOpen := fun p => if String.eqb p "src/.gitignore" then gitignore
                     else inl ErrNotExist;
  onLstat := fun p => if String.eqb p "src"
                      then inr (Dir "src" directory entries None)
                      else inl ErrNotExist;
  onParse := fun _ => None
|}.

(** The tree of the scenario of the rule file. *)
Definition scenario : list node :=
  [File ".gitignore" (regular 25) (inr "# skip");
   File "app.log" (regular 3) (inr "log");
   File "keep.txt" (regular 4) (inr "keep");
   Dir "node_modules" directory
       [File "pkg.json" (regular 2) (inr "{}")] None].

(** A tree with a file that cannot be read below an ignored directory, and
    one below a directory that is kept. *)
Definition unreadable : list node :=
  [Dir ".git" directory [File "HEAD" (regular 5) (inl ErrPermission)] None;
   Dir "lib" directory [File "a.txt" (regular 5) (inl ErrPermission)] None].

End Scripted.

(** ** The command line *)

(** [strings.Split(s, sep)] for a separator of one byte, which is how
    [main] calls it: the pieces between the separators, one more than there
    are separators. *)
Fixpoint Split (s : string) (sep : ascii) : list string :=
  match s with
  | EmptyString => [EmptyString]
  | String c t =>
      if Ascii.eqb c sep then EmptyString :: Split t sep
      else
        match Split t sep with
        | piece :: pieces => String c piece :: pieces
        | [] => [String c EmptyString]
        end
  end.

(** [strings.Join(pieces, sep)] *)
Fixpoint JoinWith (pieces : list string) (sep : string) : string :=
  match pieces with
  | [] => EmptyString
  | [piece] => piece
  | piece :: rest => piece ++ sep ++ JoinWith rest sep
  end.

(** What [main] exits with. *)
Definition exitSuccess : Z := 0.
Definition exitFailure : Z := 1.

Section CommandLine.

Context {rt : Runtime}.

(** The global [ignorePatterns] as [main] sets it from the value of the
    flag [-ignore]. *)
Definition parseIgnoreFlag (ignoreFlag : string) : list string :=
  if is_empty ignoreFlag then []
  else map TrimSpace (Split ignoreFlag ","%char).

(** [main] after [flag.Parse]: [showVersion] and [ignoreFlag] are the values
    of the flags and [args] is [flag.Args()].  The result is the state of
    the file system and the exit status; [log.Fatalf] exits with 1. *)
Definition main (showVersion : bool) (ignoreFlag : string)
           (args : list string) (st : fs) : fs * Z :=
  if showVersion then (st, exitSuccess)
  else
    match args with
    | command :: arg1 :: arg2 :: _ =>
        let ignorePatterns := parseIgnoreFlag ignoreFlag in
        if String.eqb command "clone" then
          match cloneProject ignorePatterns arg1 arg2 st with
          | (st', Some _) => (st', exitFailure)
          | (st', None) => (st', exitSuccess)
          end
        else if String.eqb command "restore" then
          match restoreProject arg1 arg2 st with
          | (st', Some _) => (st', exitFailure)
          | (st', None) => (st', exitSuccess)
          end
        else (st, exitFailure)
    | _ => (st, exitFailure)
    end.

(** *** The writes of a restore, as a plan *)

(** The calls that the loop of [restoreProject] makes for one entry. *)
Definition entryOps (destination : string) (file : FileInfo)
  : list Scripted.op :=
  let path := Join destination (FromSlash (Path file)) in
  if IsDir file then [Scripted.OpMkdirAll path (Mode file)]
  else
    [Scripted.OpMkdirAll (Dir_ path) dirPerms;
     Scripted.OpWriteFile path (Contents file)
                          (if Mode file =? 0 then defaultPerms
                           else Mode file)].

Definition perform (o : Scripted.op) (st : fs) : fs * option oserr :=
  match o with
  | Scripted.OpWriteFile path data perm => WriteFile st path data perm
  | Scripted.OpMkdirAll path perm => MkdirAll st path perm
  end.

(** The calls made in order, up to and with the first that fails. *)
Fixpoint performAll (ops : list Scripted.op) (st : fs) : fs * option oserr :=
  match ops with
  | [] => (st, None)
  | o :: rest =>
      match perform o st with
      | (st', Some e) => (st', Some e)
      | (st', None) => performAll rest st'
      end
  end.

End CommandLine.

(** The system error that an error of the program wraps with [%w], if
    any. *)
Fixpoint Unwrap (e : error) : option oserr :=
  match e with
  | PathEmpty | PathNotExist _ | SourceNotDir _ | DestinationExists _
  | ParseFailed _ => None
  | InvalidSource e' | InvalidConfig e' => Unwrap e'
  | CannotAccess _ oe | StatSourceFailed oe | ErrorAccessing _ oe
  | InfoFailed _ oe | ReadFailed _ oe | WriteOutputFailed oe
  | ReadConfigFailed oe | CreateDestinationFailed oe | CreateDirFailed _ oe
  | CreateParentFailed _ oe | WriteFileFailed _ oe => Some oe
  end.

(** ** More properties stated about the program *)

(** An entry as the walk records it: its path is not ignored and is not the
    root, and a directory has no contents. *)
Definition recorded (P : list string) (f : FileInfo) : Prop :=
  shouldIgnore (Path f) P = false
  /\ Path f <> "."
  /\ (IsDir f = true -> Contents f = "").

(** A path strictly below the directory [rel]. *)
Definition below (rel : string) (f : FileInfo) : Prop :=
  HasPrefix (Path f) (rel ++ String Separator "") = true.

(** A pattern without the operators of [filepath.Match]. *)
Fixpoint literal (pattern : string) : bool :=
  match pattern with
  | EmptyString => true
  | String c t =>
      negb (Ascii.eqb c "*"%char) && negb (Ascii.eqb c "?"%char)
      && negb (Ascii.eqb c "["%char) && negb (Ascii.eqb c "\"%char)
      && literal t
  end.

(** What is left of a snapshot after the encoder: the strings as text. *)
Definition coerceFile (f : FileInfo) : FileInfo :=
  mkFileInfo (json.coerce (Path f)) (json.coerce (Contents f)) (IsDir f)
             (Mode f).

Definition coerceSnapshot (s : ProjectSnapshot) : ProjectSnapshot :=
  mkProjectSnapshot (json.coerce (Version s))
                    (option_map (map coerceFile) (Files s)).

(** A member whose key names no field of [FileInfo]. *)
Definition unknownKey (key : string) : bool :=
  negb (json.names key "path") && negb (json.names key "contents")
  && negb (json.names key "is_dir") && negb (json.names key "mode").

(** A tree as a file system gives it: in every directory the names are
    pairwise different, hold no separator, and are not ["."]. *)
#[local] Unset Elimination Schemes.
Inductive WellNamed : node -> Prop :=
| WellNamed_File name info data : WellNamed (File name info data)
| WellNamed_Dir name info entries readdir :
    NoDup (map Name entries) ->
    Forall (fun d => hasSeparator (Name d) = false
                     /\ String.eqb (Name d) "." = false) entries ->
    Forall WellNamed entries ->
    WellNamed (Dir name info entries readdir).
#[local] Set Elimination Schemes.

(** * Theorems *)

(** ** Strings *)

Lemma HasPrefix_empty (s : string) : HasPrefix s "" = true.
Proof. destruct s; reflexivity. Qed.

Lemma Contains_empty (s : string) : Contains s "" = true.
Proof. destruct s; reflexivity. Qed.

Lemma HasPrefix_spec (s p : string) :
  HasPrefix s p = true <-> exists t, s = (p ++ t)%string.
Proof.
  revert s; induction p as [|a p IH]; intros s; simpl.
  - split; [intros _; exists s; reflexivity | reflexivity].
  - destruct s as [|b s].
    + split; [discriminate | intros [t Ht]; discriminate].
    + rewrite andb_true_iff, Ascii.eqb_eq, IH. split.
      * intros [-> [t ->]]. exists t; reflexivity.
      * intros [t Ht]. injection Ht as -> ->. split; [reflexivity | eauto].
Qed.

(** [Contains] is the substring relation. *)
Lemma Contains_spec (s sub : string) :
  Contains s sub = true <-> exists a b, s = (a ++ sub ++ b)%string.
Proof.
  induction s as [|c s IH].
  - simpl. rewrite orb_false_r, HasPrefix_spec. split.
    + intros [t Ht]. exists "", t. exact Ht.
    + intros [a [b H]]. destruct a; [exists b; exact H | discriminate].
  - simpl. rewrite orb_true_iff, HasPrefix_spec, IH. split.
    + intros [[t Ht] | [a [b H]]].
      * exists "", t. exact Ht.
      * exists (String c a), b. simpl. now rewrite H.
    + intros [a [b H]]. destruct a as [|c' a]; simpl in H.
      * left. exists b. exact H.
      * right. injection H as _ H. exists a, b. exact H.
Qed.

(** ** The fuel of [filepath.Match]

    The loops of [Match] are bounded by a fuel; every round consumes a byte
    of the pattern, so the fuel they are started with is never used up, and
    more fuel changes nothing. *)

Lemma length_from (n : nat) (s : string) :
  String.length (from n s) = (String.length s - n)%nat.
Proof.
  revert s; induction n as [|n IH]; intros [|c s]; simpl; auto.
Qed.

Lemma is_empty_length (s : string) :
  is_empty s = false -> (0 < String.length s)%nat.
Proof. destruct s; [discriminate | simpl; lia]. Qed.

(** A rune of a string that is not empty is at least one byte wide. *)
Lemma DecodeRuneInString_width (s : string) :
  is_empty s = false -> (1 <= snd (utf8.DecodeRuneInString s))%nat.
Proof.
  intros H. apply is_empty_length in H. unfold utf8.DecodeRuneInString.
  destruct (Z.ltb_spec (Z.of_nat (String.length s)) 1); [lia|].
  repeat match goal with
         | |- context [if ?b then _ else _] => destruct b
         end; simpl; lia.
Qed.

Lemma getEsc_shorter (chunk nchunk : string) (r : Z) :
  getEsc chunk = Ok (r, nchunk) ->
  (String.length nchunk < String.length chunk)%nat.
Proof.
  unfold getEsc. destruct chunk as [|c t]; [discriminate|].
  destruct (Ascii.eqb c "-" || Ascii.eqb c "]"); [discriminate|].
  destruct (Ascii.eqb c "\"%char); cbn [andb].
  - destruct (is_empty t) eqn:Ht; [discriminate|].
    pose proof (DecodeRuneInString_width t Ht) as Hw.
    destruct (utf8.DecodeRuneInString t) as [r' n]. cbn [snd] in Hw.
    destruct ((r' =? utf8.RuneError) && Nat.eqb n 1); [discriminate|].
    destruct (is_empty (from n t)); [discriminate|].
    intros [= _ <-]. rewrite length_from. cbn [String.length]. lia.
  - pose proof (DecodeRuneInString_width (String c t) eq_refl) as Hw.
    destruct (utf8.DecodeRuneInString (String c t)) as [r' n].
    cbn [snd] in Hw.
    destruct ((r' =? utf8.RuneError) && Nat.eqb n 1); [discriminate|].
    destruct (is_empty (from n (String c t))); [discriminate|].
    intros [= _ <-]. rewrite length_from. cbn [String.length]. lia.
Qed.

Lemma HasPrefix_nonempty (s p : string) :
  HasPrefix s p = true -> is_empty p = false -> (0 < String.length s)%nat.
Proof.
  destruct p; [discriminate|]. destruct s; [discriminate|].
  intros _ _. simpl. lia.
Qed.

Lemma classLoop_fuel (n m : nat) :
  forall chunk r matched nrange,
    (String.length chunk < n)%nat -> (String.length chunk < m)%nat ->
    classLoop n chunk r matched nrange = classLoop m chunk r matched nrange.
Proof.
  revert m; induction n as [|n IH]; intros [|m] chunk r matched nrange Hn Hm;
    try lia.
  cbn [classLoop].
  destruct (HasPrefix chunk "]" && Nat.ltb 0 nrange); [reflexivity|].
  destruct (getEsc chunk) as [[lo chunk1]|] eqn:E1; [|reflexivity].
  apply getEsc_shorter in E1.
  destruct (HasPrefix chunk1 "-").
  - destruct (getEsc (from 1 chunk1)) as [[hi chunk2]|] eqn:E2; [|reflexivity].
    apply getEsc_shorter in E2. rewrite length_from in E2.
    apply IH; lia.
  - apply IH; lia.
Qed.

(** A character class is shorter once parsed. *)
Lemma classLoop_shorter (n : nat) :
  forall chunk r matched nrange t matched',
    classLoop n chunk r matched nrange = Ok (t, matched') ->
    (String.length t < String.length chunk)%nat.
Proof.
  induction n as [|n IH]; intros chunk r matched nrange t matched';
    [discriminate|].
  cbn [classLoop].
  destruct (HasPrefix chunk "]" && Nat.ltb 0 nrange) eqn:Hend.
  - intros [= <- _]. apply andb_true_iff in Hend. destruct Hend as [Hp _].
    apply HasPrefix_nonempty in Hp; [|reflexivity].
    destruct chunk; simpl in *; lia.
  - destruct (getEsc chunk) as [[lo chunk1]|] eqn:E1; [|discriminate].
    apply getEsc_shorter in E1.
    destruct (HasPrefix chunk1 "-").
    + destruct (getEsc (from 1 chunk1)) as [[hi chunk2]|] eqn:E2;
        [|discriminate].
      apply getEsc_shorter in E2. rewrite length_from in E2.
      intros H. apply IH in H. lia.
    + intros H. apply IH in H. lia.
Qed.

Lemma matchChunkLoop_fuel (n m : nat) :
  forall chunk s failed,
    (String.length chunk < n)%nat -> (String.length chunk < m)%nat ->
    matchChunkLoop n chunk s failed = matchChunkLoop m chunk s failed.
Proof.
  revert m; induction n as [|n IH]; intros [|m] chunk s failed Hn Hm;
    try lia.
  cbn [matchChunkLoop].
  destruct chunk as [|c t]; [reflexivity|]. cbn [String.length] in Hn, Hm.
  assert (Hlit : forall (c' : ascii) (t' : string) (f : bool),
             (String.length t' <= String.length t)%nat ->
             (if f then matchChunkLoop n t' s f
              else matchChunkLoop n t' (from 1 s) (negb (byte c' =? at_ s 0)))
             = (if f then matchChunkLoop m t' s f
                else matchChunkLoop m t' (from 1 s)
                                    (negb (byte c' =? at_ s 0)))).
  { intros c' t' f Hle. destruct f; apply IH; lia. }
  destruct (Ascii.eqb c "[").
  - destruct (if failed || is_empty s then (0, s)
              else let '(r, k) := utf8.DecodeRuneInString s in (r, from k s))
      as [r s'].
    set (t0 := if HasPrefix t "^" then from 1 t else t).
    assert (Ht0 : (String.length t0 <= String.length t)%nat).
    { subst t0. destruct (HasPrefix t "^"); [rewrite length_from|]; lia. }
    rewrite (classLoop_fuel n m t0) by lia.
    destruct (classLoop m t0 r false 0) as [[t1 matched]|] eqn:E;
      [|reflexivity].
    apply classLoop_shorter in E. apply IH; lia.
  - destruct (Ascii.eqb c "?").
    + destruct (failed || is_empty s); [apply IH; lia|].
      destruct (utf8.DecodeRuneInString s) as [r k]. apply IH; lia.
    + destruct (Ascii.eqb c "\"%char).
      * destruct t as [|c' t']; [reflexivity|].
        apply Hlit. simpl. lia.
      * apply Hlit. lia.
Qed.

Lemma skipStars_length (pattern : string) :
  (String.length (snd (skipStars pattern)) <= String.length pattern)%nat
  /\ (fst (skipStars pattern) = true ->
      String.length (snd (skipStars pattern)) < String.length pattern)%nat
  /\ HasPrefix (snd (skipStars pattern)) "*" = false.
Proof.
  induction pattern as [|c t IH]; [simpl; repeat split; auto; discriminate|].
  cbn [skipStars]. destruct (Ascii.eqb c "*") eqn:Hc; cbn [fst snd].
  - destruct IH as (IH1 & _ & IH3). simpl. repeat split; auto; lia.
  - repeat split; auto; try discriminate.
    cbn [HasPrefix]. rewrite Ascii.eqb_sym, Hc. reflexivity.
Qed.

Lemma skipStars_no_star (pattern : string) :
  fst (skipStars pattern) = false -> snd (skipStars pattern) = pattern.
Proof.
  destruct pattern as [|c t]; [reflexivity|]. cbn [skipStars].
  destruct (Ascii.eqb c "*"); [discriminate | reflexivity].
Qed.

Lemma scanLoop_length_bounded (n : nat) :
  forall pattern inrange,
    (String.length pattern <= n)%nat ->
    (String.length (fst (scanLoop inrange pattern))
     + String.length (snd (scanLoop inrange pattern))
     = String.length pattern)%nat.
Proof.
  induction n as [|n IH]; intros [|c t] inrange Hn; try reflexivity;
    cbn [String.length] in Hn; [lia|].
  cbn [scanLoop].
  assert (Hstep : forall b,
             (String.length (fst (let '(chunk, rest) := scanLoop b t in
                                  (String c chunk, rest)))
              + String.length (snd (let '(chunk, rest) := scanLoop b t in
                                    (String c chunk, rest)))
              = String.length (String c t))%nat).
  { intros b. specialize (IH t b ltac:(lia)).
    destruct (scanLoop b t) as [chunk rest]. simpl in *. lia. }
  destruct (Ascii.eqb c "\"%char).
  - destruct t as [|c' t']; [reflexivity|]. cbn [String.length] in Hn.
    specialize (IH t' inrange ltac:(lia)).
    destruct (scanLoop inrange t') as [chunk rest]. simpl in *. lia.
  - destruct (Ascii.eqb c "["); [apply Hstep|].
    destruct (Ascii.eqb c "]"); [apply Hstep|].
    destruct (Ascii.eqb c "*" && negb inrange); [reflexivity | apply Hstep].
Qed.

Lemma scanLoop_length (pattern : string) (inrange : bool) :
  (String.length (fst (scanLoop inrange pattern))
   + String.length (snd (scanLoop inrange pattern))
   = String.length pattern)%nat.
Proof. now apply (scanLoop_length_bounded (String.length pattern)). Qed.

(** A chunk that starts with no star and in no class is not empty. *)
Lemma scanLoop_progress (pattern : string) :
  is_empty pattern = false -> HasPrefix pattern "*" = false ->
  is_empty (fst (scanLoop false pattern)) = false.
Proof.
  destruct pattern as [|c t]; [discriminate|]. intros _ Hstar.
  cbn [HasPrefix] in Hstar. rewrite andb_true_r, Ascii.eqb_sym in Hstar.
  cbn [scanLoop]. rewrite Hstar. cbn [andb].
  destruct (Ascii.eqb c "\"%char).
  - destruct t as [|c' t']; [reflexivity|].
    destruct (scanLoop false t'); reflexivity.
  - destruct (Ascii.eqb c "[").
    + destruct (scanLoop true t); reflexivity.
    + destruct (Ascii.eqb c "]"); destruct (scanLoop false t); reflexivity.
Qed.

(** [scanChunk] takes at least one byte off a pattern that is not empty. *)
Lemma scanChunk_shorter (pattern chunk rest : string) (star : bool) :
  is_empty pattern = false ->
  scanChunk pattern = (star, chunk, rest) ->
  (String.length rest < String.length pattern)%nat.
Proof.
  intros Hne. unfold scanChunk.
  destruct (skipStars_length pattern) as (H1 & H2 & H3).
  pose proof (skipStars_no_star pattern) as H4.
  destruct (skipStars pattern) as [st p']. cbn [fst snd] in *.
  pose proof (scanLoop_length p' false) as Hlen.
  pose proof (scanLoop_progress p') as Hprog.
  destruct (scanLoop false p') as [ch rs]. cbn [fst snd] in *.
  intros [= _ _ <-].
  destruct st.
  - specialize (H2 eq_refl). lia.
  - specialize (H4 eq_refl). subst p'.
    specialize (Hprog Hne H3). apply is_empty_length in Hprog. lia.
Qed.

Lemma checkRest_fuel (n m : nat) :
  forall pattern,
    (String.length pattern < n)%nat -> (String.length pattern < m)%nat ->
    checkRest n pattern = checkRest m pattern.
Proof.
  revert m; induction n as [|n IH]; intros [|m] pattern Hn Hm; try lia.
  cbn [checkRest]. destruct (is_empty pattern) eqn:Hne; [reflexivity|].
  destruct (scanChunk pattern) as [[star chunk] rest] eqn:E.
  apply scanChunk_shorter in E; [|exact Hne].
  destruct (matchChunk chunk ""); [|reflexivity]. apply IH; lia.
Qed.

Lemma MatchLoop_fuel (n m : nat) :
  forall pattern name,
    (String.length pattern < n)%nat -> (String.length pattern < m)%nat ->
    MatchLoop n pattern name = MatchLoop m pattern name.
Proof.
  revert m; induction n as [|n IH]; intros [|m] pattern name Hn Hm; try lia.
  cbn [MatchLoop]. destruct (is_empty pattern) eqn:Hne; [reflexivity|].
  destruct (scanChunk pattern) as [[star chunk] rest] eqn:E.
  apply scanChunk_shorter in E; [|exact Hne].
  destruct (star && is_empty chunk); [reflexivity|].
  rewrite (checkRest_fuel n m rest) by lia.
  assert (Hstar :
            (if star
             then match starLoop chunk (is_empty rest) name with
                  | Found t => MatchLoop n rest t
                  | Bad => ErrBadPattern
                  | NotFound => checkRest m rest
                  end
             else checkRest m rest)
            = (if star
               then match starLoop chunk (is_empty rest) name with
                    | Found t => MatchLoop m rest t
                    | Bad => ErrBadPattern
                    | NotFound => checkRest m rest
                    end
               else checkRest m rest)).
  { destruct star; [|reflexivity].
    destruct (starLoop chunk (is_empty rest) name); try reflexivity.
    apply IH; lia. }
  rewrite Hstar.
  destruct (matchChunk chunk name) as [[t|]|]; try reflexivity.
  destruct (is_empty t || negb (is_empty rest)); [|reflexivity].
  apply IH; lia.
Qed.

(** [Match] does not depend on the fuel its loop is given, above the length
    of the pattern. *)
Lemma Match_fuel (n : nat) (pattern name : string) :
  (String.length pattern < n)%nat ->
  MatchLoop n pattern name = Match pattern name.
Proof. intros H. apply MatchLoop_fuel; [exact H | lia]. Qed.

(** ** The ignore rule *)

Example shouldIgnore_exact_filename : shouldIgnore "test.log" ["*.log"] = true.
Proof. reflexivity. Qed.

Example shouldIgnore_directory_name :
  shouldIgnore "node_modules/package" ["node_modules"] = true.
Proof. reflexivity. Qed.

Example shouldIgnore_no_match :
  shouldIgnore "src/main.go" ["*.log"; "node_modules"] = false.
Proof. reflexivity. Qed.

Example shouldIgnore_nested_directory :
  shouldIgnore "src/.git/config" [".git"] = true.
Proof. reflexivity. Qed.

Example shouldIgnore_empty_patterns : shouldIgnore "any/path" [] = false.
Proof. reflexivity. Qed.

Example shouldIgnore_wildcard :
  shouldIgnore "test.tmp" ["*.tmp"; "*.log"] = true.
Proof. reflexivity. Qed.

Example Match_class : Match "[a-c]?.go" "b1.go" = Ok true.
Proof. reflexivity. Qed.

Example Match_negated_class : Match "[^a-c]*" "b1.go" = Ok false.
Proof. reflexivity. Qed.

Example Match_unclosed_class : Match "[" "a[b" = ErrBadPattern.
Proof. reflexivity. Qed.

Example Match_late_syntax_error : Match "a*[" "b" = ErrBadPattern.
Proof. reflexivity. Qed.

(** [?] takes one rune: U+00E9 is the two bytes 0xC3 0xA9. *)
Example Match_rune :
  let e_acute := String (ascii_of_nat 195) (String (ascii_of_nat 169) "") in
  Match "?.txt" (e_acute ++ ".txt") = Ok true
  /\ Match "??.txt" (e_acute ++ ".txt") = Ok false
  /\ Match "[a-z]" e_acute = Ok false
  /\ Match ("[" ++ e_acute ++ "]") e_acute = Ok true.
Proof. repeat split. Qed.

Example Match_star_stops_at_separator :
  Match "*" "a/b" = Ok false /\ Match "a*" "abc" = Ok true
  /\ Match "*c" "abc" = Ok true /\ Match "a*b*c" "a-b-c" = Ok true
  /\ Match "\*" "*" = Ok true /\ Match "\*" "a" = Ok false
  /\ Match "a\" "a" = ErrBadPattern.
Proof. repeat split. Qed.

Example Base_examples :
  Base "src/.git/config" = "config" /\ Base "a/b//" = "b" /\ Base "//" = "/"
  /\ Base "" = ".".
Proof. repeat split. Qed.

(** C1, as the claim states it, fails: the pattern ["["] is a malformed glob
    that occurs in the path ["a[b"], and the path is not ignored. *)
Lemma shouldIgnore_malformed_substring_not_ignored :
  ~ ignore_rule_as_specified "a[b" ["["].
Proof.
  unfold ignore_rule_as_specified. intros [_ H].
  assert (E : shouldIgnore "a[b" ["["] = true).
  { apply H. right. exists "[". split; [left; reflexivity | reflexivity]. }
  vm_compute in E. discriminate E.
Qed.

(** C1, amended: [shouldIgnore p P] is true exactly when some pattern of [P]
    that [filepath.Match] accepts against the base name of [p] either
    glob-matches that base name or occurs in the slash form of [p].  A
    pattern that [filepath.Match] rejects as malformed decides nothing, also
    when it occurs in the path. *)
Theorem shouldIgnore_iff (p : string) (P : list string) :
  shouldIgnore p P = true <->
  exists pat, In pat P /\
    (Match pat (Base p) = Ok true \/
     (Match pat (Base p) = Ok false /\ Contains (ToSlash p) pat = true)).
Proof.
  induction P as [|pat P IH]; simpl.
  - split; [discriminate | intros [? [[] _]]].
  - destruct (Match pat (Base p)) as [[|]|] eqn:E.
    + split; [intros _ | reflexivity].
      exists pat. split; [left; reflexivity | left; exact E].
    + destruct (Contains (ToSlash p) pat) eqn:C.
      * split; [intros _ | reflexivity].
        exists pat. split; [left; reflexivity | right; split; assumption].
      * rewrite IH. split.
        -- intros [q [Hin Hq]]. exists q. split; [right; exact Hin | exact Hq].
        -- intros [q [[<- | Hin] Hq]].
           ++ destruct Hq as [Hq | [_ Hq]]; congruence.
           ++ exists q. split; assumption.
    + rewrite IH. split.
      * intros [q [Hin Hq]]. exists q. split; [right; exact Hin | exact Hq].
      * intros [q [[<- | Hin] Hq]].
        -- destruct Hq as [Hq | [Hq _]]; congruence.
        -- exists q. split; assumption.
Qed.

(** The empty pattern is a well-formed glob that matches the empty name
    only. *)
Lemma Match_empty_pattern (name : string) : Match "" name = Ok (is_empty name).
Proof. reflexivity. Qed.

Lemma shouldIgnore_empty_pattern (p : string) (P : list string) :
  In "" P -> shouldIgnore p P = true.
Proof.
  induction P as [|pat P IH]; intros Hin; [destruct Hin|].
  destruct Hin as [-> | Hin]; simpl.
  - rewrite Contains_empty. now destruct (is_empty (Base p)).
  - destruct (Match pat (Base p)) as [[|]|]; auto.
    destruct (Contains (ToSlash p) pat); auto.
Qed.

(** ** The codec *)

Lemma upto_from (n : nat) (s : string) : (json.upto n s ++ from n s)%string = s.
Proof.
  revert s; induction n as [|n IH]; intros [|c s]; simpl; try reflexivity.
  now rewrite IH.
Qed.

(** Text passes the encoder unchanged. *)
Lemma coerceLoop_valid (fuel : nat) (s : string) :
  json.validLoop fuel s = true -> json.coerceLoop fuel s = s.
Proof.
  revert s; induction fuel as [|fuel IH]; intros s; simpl.
  - destruct s; [reflexivity | discriminate].
  - destruct s as [|c s]; [reflexivity|].
    cbn [is_empty].
    destruct (utf8.DecodeRuneInString (String c s)) as [r n].
    destruct ((r =? utf8.RuneError) && Nat.eqb n 1); [discriminate|].
    intros H. rewrite (IH _ H). apply upto_from.
Qed.

Lemma coerce_valid (s : string) :
  json.ValidString s = true -> json.coerce s = s.
Proof. apply coerceLoop_valid. Qed.

(** The loops over runes do not use up the fuel they are started with. *)
Lemma validLoop_fuel (n m : nat) :
  forall s,
    (String.length s <= n)%nat -> (String.length s <= m)%nat ->
    json.validLoop n s = json.validLoop m s.
Proof.
  revert m; induction n as [|n IH]; intros [|m] [|c s] Hn Hm;
    try reflexivity; cbn [String.length] in *; try lia.
  cbn [json.validLoop is_empty].
  pose proof (DecodeRuneInString_width (String c s) eq_refl) as Hw.
  destruct (utf8.DecodeRuneInString (String c s)) as [r k]. cbn [snd] in Hw.
  destruct ((r =? utf8.RuneError) && Nat.eqb k 1); [reflexivity|].
  apply IH; rewrite length_from; cbn [String.length]; lia.
Qed.

Lemma coerceLoop_fuel (n m : nat) :
  forall s,
    (String.length s <= n)%nat -> (String.length s <= m)%nat ->
    json.coerceLoop n s = json.coerceLoop m s.
Proof.
  revert m; induction n as [|n IH]; intros [|m] [|c s] Hn Hm;
    try reflexivity; cbn [String.length] in *; try lia.
  cbn [json.coerceLoop is_empty].
  pose proof (DecodeRuneInString_width (String c s) eq_refl) as Hw.
  destruct (utf8.DecodeRuneInString (String c s)) as [r k]. cbn [snd] in Hw.
  destruct ((r =? utf8.RuneError) && Nat.eqb k 1); f_equal;
    apply IH; rewrite length_from; cbn [String.length]; lia.
Qed.

Example names_examples :
  let long_s := String (ascii_of_nat 197) (String (ascii_of_nat 191) "") in
  json.names "path" "path" = true /\ json.names "Path" "path" = true
  /\ json.names "IS_DIR" "is_dir" = true
  /\ json.names ("content" ++ long_s) "contents" = true
  /\ json.names "paths" "path" = false /\ json.names "mode" "path" = false.
Proof. repeat split. Qed.

(** A document written by hand: keys in another case and order, an unknown
    key, and an entry without mode or contents. *)
Example decode_by_hand :
  json.decode
    (json.Object
       [("Files", json.Array
                    [json.Object [("is_dir", json.Bool true);
                                  ("comment", json.Number 1);
                                  ("PATH", json.Str "d")]]);
        ("version", json.Str "0.9")])
  = inr (mkProjectSnapshot "0.9" (Some [mkFileInfo "d" "" true 0])).
Proof. reflexivity. Qed.

Example decode_type_errors :
  json.decode (json.Array []) = inl json.UnmarshalTypeError
  /\ json.decode (json.Object [("files", json.Str "x")])
     = inl json.UnmarshalTypeError
  /\ json.decode
       (json.Object
          [("files", json.Array [json.Object [("mode", json.Number (-1))]])])
     = inl json.UnmarshalTypeError
  /\ json.decode json.Null = inr json.zeroSnapshot.
Proof. repeat split. Qed.

Example coerce_invalid_byte :
  json.coerce (String (ascii_of_nat 255) "a")
  = (json.replacement ++ "a")%string.
Proof. reflexivity. Qed.

Example ValidString_examples :
  json.ValidString "package main" = true
  /\ json.ValidString json.replacement = true
  /\ json.ValidString (String (ascii_of_nat 255) "a") = false
  /\ json.ValidString (String (ascii_of_nat 195) "") = false.
Proof. repeat split. Qed.

Lemma decodeFileInfo_encodeFileInfo (f : FileInfo) :
  wellFormedFile f -> json.decodeFileInfo (json.encodeFileInfo f) = inr f.
Proof.
  destruct f as [path contents isdir mode].
  unfold wellFormedFile; cbn [Path Contents IsDir Mode].
  intros (Hp & Hc & Hm).
  unfold json.encodeFileInfo; cbn [Path Contents IsDir Mode].
  rewrite (coerce_valid _ Hp), (coerce_valid _ Hc).
  destruct contents as [|c contents]; cbn [is_empty];
    destruct (Z.eqb_spec mode 0) as [-> | Hz];
    cbn -[uint32_range]; try rewrite Hm; reflexivity.
Qed.

Lemma decodeElems_encode (l : list FileInfo) :
  Forall wellFormedFile l ->
  json.decodeElems (map json.encodeFileInfo l) = inr l.
Proof.
  induction 1 as [|f l Hf _ IH]; [reflexivity|].
  cbn [map json.decodeElems].
  now rewrite (decodeFileInfo_encodeFileInfo _ Hf), IH.
Qed.

(** C2: decoding the document that encodes a well-formed snapshot gives the
    snapshot back: the same version, the same entries in the same order
    (and a nil list of entries stays nil), each with the same path,
    contents, directory flag and mode.  Well-formed means that the strings
    are valid UTF-8 and the modes are in the range of [uint32]. *)
Theorem decode_encode_roundtrip (s : ProjectSnapshot) :
  wellFormed s -> json.decode (json.encode s) = inr s.
Proof.
  destruct s as [v files]. unfold wellFormed; cbn [Version Files].
  intros [Hv Hfiles].
  unfold json.encode; cbn [Version Files].
  rewrite (coerce_valid _ Hv).
  destruct files as [l|]; cbn [elements] in Hfiles.
  - cbn -[json.decodeElems json.encodeFileInfo].
    now rewrite (decodeElems_encode _ Hfiles).
  - reflexivity.
Qed.

Lemma decode_encode_roundtrip_witness :
  let s := mkProjectSnapshot version
             (Some [mkFileInfo "dir1" "" true 493;
                    mkFileInfo "dir1/file2.txt" "content2" false 420;
                    mkFileInfo "empty.txt" "" false 0]) in
  wellFormed s /\ json.decode (json.encode s) = inr s.
Proof.
  assert (W : wellFormed
                (mkProjectSnapshot version
                   (Some [mkFileInfo "dir1" "" true 493;
                          mkFileInfo "dir1/file2.txt" "content2" false 420;
                          mkFileInfo "empty.txt" "" false 0]))).
  { split; [reflexivity|]. repeat constructor. }
  split; [exact W | exact (decode_encode_roundtrip _ W)].
Defined.

(** Outside text the round trip is lost: a byte that is not UTF-8 comes back
    as U+FFFD. *)
Example roundtrip_needs_text :
  let s := mkProjectSnapshot version
             (Some [mkFileInfo "blob" (String (ascii_of_nat 255) "") false 420])
  in json.decode (json.encode s) <> inr s.
Proof. vm_compute. discriminate. Qed.



(** ** The walk *)

(** Induction on a tree, with the property for the entries of a
    directory. *)
Lemma node_induction (Q : node -> Prop) :
  (forall name info data, Q (File name info data)) ->
  (forall name info entries readdir,
      Forall Q entries -> Q (Dir name info entries readdir)) ->
  forall d, Q d.
Proof.
  intros HF HD. fix IH 1. intros [name info data | name info entries readdir].
  - apply HF.
  - apply HD. induction entries as [|d1 rest IHrest]; constructor.
    + apply IH.
    + exact IHrest.
Qed.

Section Walk.

Context {rt : Runtime}.
Variable P : list string.

(** [walkDir], with its loop written as [walkEntries]; the second call of
    the function, after a failed listing, returns its error. *)
Lemma walkDir_eq (path rel : string) (d : node) (files : list FileInfo) :
  walkDir P path rel d files =
  match walkFn P path rel d None files with
  | (files1, Continue) =>
      match d with
      | File _ _ _ => (files1, Continue)
      | Dir _ _ entries None =>
          walkEntries (walkDir P) path rel entries files1
      | Dir _ _ _ (Some e) => (files1, Fail (ErrorAccessing path e))
      end
  | (files1, SkipDir) =>
      if NodeIsDir d then (files1, Continue) else (files1, SkipDir)
  | (files1, Fail e) => (files1, Fail e)
  end.
Proof.
  destruct d as [name info data | name info entries readdir];
    [reflexivity|].
  cbn [walkDir].
  destruct (walkFn P path rel (Dir name info entries readdir) None files)
    as [files1 [| |e]]; try reflexivity.
  destruct readdir as [e|]; [reflexivity|].
  revert files1. induction entries as [|d1 rest IH]; intros files1;
    [reflexivity|].
  cbn [walkEntries].
  destruct (walkDir P (Join path (Name d1)) (relJoin rel (Name d1)) d1 files1)
    as [files' [| |e]]; try reflexivity.
  apply IH.
Qed.

(** The function looks at a directory entry, not at what it lists. *)
Lemma walkFn_Dir_entries (path rel name : string) info entries entries'
      readdir readdir' err (files : list FileInfo) :
  walkFn P path rel (Dir name info entries readdir) err files
  = walkFn P path rel (Dir name info entries' readdir') err files.
Proof. reflexivity. Qed.

Lemma walkEntries_no_SkipDir walk path rel entries files files' :
  walkEntries walk path rel entries files <> (files', SkipDir).
Proof.
  revert files; induction entries as [|d1 rest IH]; intros files; simpl.
  - discriminate.
  - destruct (walk _ _ d1 files) as [f [| |e]];
      [apply IH | discriminate | discriminate].
Qed.

(** [SkipDir] never leaves [walkDir]: the function returns it for
    directories only. *)
Lemma walkDir_no_SkipDir path rel d files files' :
  walkDir P path rel d files <> (files', SkipDir).
Proof.
  rewrite walkDir_eq. unfold walkFn.
  destruct (String.eqb rel ".").
  - destruct d as [? ? ?|? ? entries [e|]];
      [discriminate | discriminate | apply walkEntries_no_SkipDir].
  - destruct (shouldIgnore rel P).
    + destruct d; cbn [NodeIsDir]; discriminate.
    + destruct (Info d) as [e|info]; [discriminate|].
      destruct d as [? ? data|? ? entries [e|]]; cbn [NodeIsDir negb Data].
      * destruct (maxFileSize <? Size info); [discriminate|].
        destruct data; discriminate.
      * discriminate.
      * apply walkEntries_no_SkipDir.
Qed.

(** An entry whose walk adds nothing and goes on can be taken out of the
    listing. *)
Lemma walkEntries_skip walk path rel pre d post files :
  (forall files,
      walk (Join path (Name d)) (relJoin rel (Name d)) d files
      = (files, Continue)) ->
  walkEntries walk path rel (pre ++ d :: post) files
  = walkEntries walk path rel (pre ++ post) files.
Proof.
  intros Hd. revert files. induction pre as [|d0 pre IH]; intros files;
    cbn [app walkEntries].
  - now rewrite Hd.
  - destruct (walk _ _ d0 files) as [f [| |e]]; auto.
Qed.

Lemma walkDir_skip path rel name info readdir pre d post files :
  (forall files,
      walkDir P (Join path (Name d)) (relJoin rel (Name d)) d files
      = (files, Continue)) ->
  walkDir P path rel (Dir name info (pre ++ d :: post) readdir) files
  = walkDir P path rel (Dir name info (pre ++ post) readdir) files.
Proof.
  intros Hd. rewrite !walkDir_eq.
  rewrite (walkFn_Dir_entries path rel name info _ (pre ++ post)
                              readdir readdir).
  destruct (walkFn P path rel (Dir name info (pre ++ post) readdir) None
                   files) as [files1 [| |e]]; try reflexivity.
  destruct readdir; [reflexivity|].
  now apply walkEntries_skip.
Qed.

Lemma walkFn_ignored path relPath d files :
  String.eqb relPath "." = false -> shouldIgnore relPath P = true ->
  walkFn P path relPath d None files
  = (files, if NodeIsDir d then SkipDir else Continue).
Proof.
  intros H1 H2. unfold walkFn. rewrite H1, H2.
  now destruct (NodeIsDir d).
Qed.

Lemma walkDir_ignored path relPath d files :
  String.eqb relPath "." = false -> shouldIgnore relPath P = true ->
  walkDir P path relPath d files = (files, Continue).
Proof.
  intros H1 H2. rewrite walkDir_eq, (walkFn_ignored _ _ _ _ H1 H2).
  destruct d; reflexivity.
Qed.

(** C8: an entry whose relative path is ignored is dropped by the
    function, with [SkipDir] for a directory and [nil] for a file; its walk
    adds no entry whatever lies below it; and the directory that lists it
    is walked as if the entry were not there, so the entries after it are
    still visited. *)
Theorem ignored_entry_pruned path rel name info readdir pre d post files :
  String.eqb (relJoin rel (Name d)) "." = false ->
  shouldIgnore (relJoin rel (Name d)) P = true ->
  walkFn P (Join path (Name d)) (relJoin rel (Name d)) d None files
  = (files, if NodeIsDir d then SkipDir else Continue)
  /\ walkDir P (Join path (Name d)) (relJoin rel (Name d)) d files
     = (files, Continue)
  /\ walkDir P path rel (Dir name info (pre ++ d :: post) readdir) files
     = walkDir P path rel (Dir name info (pre ++ post) readdir) files.
Proof.
  intros H1 H2. split; [|split].
  - now apply walkFn_ignored.
  - now apply walkDir_ignored.
  - apply walkDir_skip. intros files0. now apply walkDir_ignored.
Qed.



(** C9: a pattern set that holds the empty string ignores every path,
    since every path contains the empty string; so the walk of any entry
    below the root adds nothing to the snapshot. *)
Theorem empty_pattern_ignores_everything :
  In "" P ->
  (forall p, shouldIgnore p P = true)
  /\ (forall path rel d files,
         String.eqb rel "." = false ->
         walkDir P path rel d files = (files, Continue)).
Proof.
  intros Hin. split.
  - intros p. now apply shouldIgnore_empty_pattern.
  - intros path rel d files Hrel. apply walkDir_ignored; [exact Hrel|].
    now apply shouldIgnore_empty_pattern.
Qed.

End Walk.

(** ** I/O errors during the walk *)

Section Faults.

Context {rt : Runtime}.
Variable P : list string.

Lemma identifies_ErrorAccessing p e : identifies (ErrorAccessing p e) p.
Proof. exists e; auto. Qed.

Lemma identifies_InfoFailed p e : identifies (InfoFailed p e) p.
Proof. exists e; auto. Qed.

Lemma identifies_ReadFailed p e : identifies (ReadFailed p e) p.
Proof. exists e; auto. Qed.

(** A failing loop fails at one of its entries. *)
Lemma walkEntries_Fail walk path rel entries files files' e :
  walkEntries walk path rel entries files = (files', Fail e) ->
  exists d1 files0,
    In d1 entries /\
    walk (Join path (Name d1)) (relJoin rel (Name d1)) d1 files0
    = (files', Fail e).
Proof.
  revert files; induction entries as [|d1 rest IH]; intros files; simpl.
  - discriminate.
  - destruct (walk _ _ d1 files) as [f [| |e0]] eqn:E; intros H.
    + destruct (IH _ H) as (d & f0 & Hin & Hd). exists d, f0. auto.
    + discriminate.
    + injection H as -> ->. exists d1, files. auto.
Qed.

(** A loop over entries of which one always fails does fail, when no walk
    of an entry returns [SkipDir]. *)
Lemma walkEntries_reaches_Fail walk path rel entries d1 :
  (forall p r d files files', walk p r d files <> (files', SkipDir)) ->
  In d1 entries ->
  (forall files, exists files' e,
      walk (Join path (Name d1)) (relJoin rel (Name d1)) d1 files
      = (files', Fail e)) ->
  forall files, exists files' e,
    walkEntries walk path rel entries files = (files', Fail e).
Proof.
  intros Hskip Hin Hd1.
  induction entries as [|d rest IH]; [destruct Hin|].
  intros files. cbn [walkEntries].
  destruct (walk _ _ d files) as [f [| |e]] eqn:E.
  - destruct Hin as [-> | Hin].
    + destruct (Hd1 files) as (f' & e & He). congruence.
    + apply (IH Hin).
  - exfalso. exact (Hskip _ _ _ _ _ E).
  - eauto.
Qed.

(** The error of a failed walk names the path of a fault. *)
Lemma walkDir_Fail_sound d :
  forall path rel files files' e,
    walkDir P path rel d files = (files', Fail e) ->
    exists p, Fault P path rel d p /\ identifies e p.
Proof.
  induction d as [name info data | name info entries readdir IH]
    using node_induction; intros path rel files files' e;
    rewrite walkDir_eq; unfold walkFn.
  - destruct (String.eqb_spec rel ".") as [_ | Hrel]; [discriminate|].
    destruct (shouldIgnore rel P) eqn:Hign; [discriminate|].
    cbn [Info NodeIsDir negb Data].
    destruct info as [oe | info].
    + intros H; injection H as _ <-. exists path. split.
      * now apply Fault_info with (e := oe).
      * apply identifies_InfoFailed.
    + destruct (Z.ltb_spec maxFileSize (Size info)) as [_ | Hsize];
        [discriminate|].
      destruct data as [oe | data]; [|discriminate].
      intros H; injection H as _ <-. exists path. split.
      * now apply Fault_read.
      * apply identifies_ReadFailed.
  - assert (Hentries :
              forall files1, entered P rel info ->
                match readdir with
                | None => walkEntries (walkDir P) path rel entries files1
                | Some e0 => (files1, Fail (ErrorAccessing path e0))
                end = (files', Fail e) ->
                exists p,
                  Fault P path rel (Dir name info entries readdir) p
                  /\ identifies e p).
    { intros files1 Hent. destruct readdir as [e0|].
      - intros H; injection H as _ <-. exists path. split.
        + now apply Fault_readdir.
        + apply identifies_ErrorAccessing.
      - intros H. apply walkEntries_Fail in H.
        destruct H as (d1 & files0 & Hin & Hd1).
        rewrite Forall_forall in IH.
        destruct (IH d1 Hin _ _ _ _ _ Hd1) as (p & Hp & Hid).
        exists p. split; [|exact Hid].
        now apply Fault_entry with (d1 := d1). }
    destruct (String.eqb_spec rel ".") as [Hrel | Hrel].
    + apply Hentries. now left.
    + destruct (shouldIgnore rel P) eqn:Hign; [discriminate|].
      cbn [Info NodeIsDir negb].
      destruct info as [oe | info].
      * intros H; injection H as _ <-. exists path. split.
        -- now apply Fault_info with (e := oe).
        -- apply identifies_InfoFailed.
      * apply Hentries. right. eauto.
Qed.

(** A fault makes the walk fail. *)
Lemma walkDir_Fault_fails path rel d p :
  Fault P path rel d p ->
  forall files, exists files' e, walkDir P path rel d files = (files', Fail e).
Proof.
  assert (Hdir :
            forall path rel name info entries readdir files,
              entered P rel info ->
              exists files1,
                walkFn P path rel (Dir name info entries readdir) None files
                = (files1, Continue)).
  { intros path0 rel0 name info entries readdir files [-> | [Hign [i ->]]];
      unfold walkFn.
    - eexists; reflexivity.
    - destruct (String.eqb rel0 "."); [eexists; reflexivity|].
      rewrite Hign. eexists; reflexivity. }
  induction 1 as [path rel d e Hrel Hign Hinfo
                 | path rel name info e Hrel Hign Hsize
                 | path rel name info entries e Hent
                 | path rel name info entries readdir d1 p Hent Hin _ IH];
    intros files; rewrite walkDir_eq.
  - unfold walkFn. apply String.eqb_neq in Hrel. rewrite Hrel, Hign, Hinfo.
    eauto.
  - unfold walkFn. apply String.eqb_neq in Hrel. rewrite Hrel, Hign.
    cbn [Info NodeIsDir negb Data].
    destruct (Z.ltb_spec maxFileSize (Size info)); [lia|]. eauto.
  - destruct (Hdir path rel name info entries (Some e) files Hent)
      as [files1 ->]. eauto.
  - destruct (Hdir path rel name info entries readdir files Hent)
      as [files1 ->].
    destruct readdir as [e|]; [eauto|].
    apply walkEntries_reaches_Fail with (d1 := d1); auto.
    intros; apply walkDir_no_SkipDir.
Qed.

(** A fault makes the walk fail with an error that names the path of a
    fault. *)
Lemma WalkDir_fails_at_fault st source p :
  WalkFault P st source p ->
  exists files e p',
    WalkDir P st source = (files, Some e)
    /\ WalkFault P st source p' /\ identifies e p'.
Proof.
  unfold WalkFault, WalkDir. destruct (Lstat st source) as [oe | d].
  - intros ->. exists [], (ErrorAccessing source oe), source.
    repeat split. apply identifies_ErrorAccessing.
  - intros HF.
    destruct (walkDir_Fault_fails _ _ _ _ HF []) as (files & e & Hw).
    destruct (walkDir_Fail_sound _ _ _ _ _ _ Hw) as (p' & Hp' & Hid).
    rewrite Hw. exists files, e, p'. auto.
Qed.

End Faults.

(** ** Capture and restore *)

Section Operations.

Context {rt : Runtime}.



Lemma materialize_existing snapshot destination st info :
  Stat st destination = inr info ->
  materialize snapshot destination st
  = (st, Some (DestinationExists destination)).
Proof. intros H. unfold materialize. now rewrite H. Qed.

(** C3: when the destination exists, whatever it is, [restoreProject]
    returns an error and leaves the file system as it was; and for every
    snapshot document, that is a readable file that decodes, the error is
    that the destination already exists. *)
Theorem restore_existing_destination configFile destination st info :
  Stat st destination = inr info ->
  (exists e, restoreProject configFile destination st = (st, Some e))
  /\ (forall data snapshot,
         validatePath st configFile true = None ->
         ReadFile st configFile = inr data ->
         Unmarshal data = inr snapshot ->
         restoreProject configFile destination st
         = (st, Some (DestinationExists destination))).
Proof.
  intros Hstat. unfold restoreProject. split.
  - destruct (validatePath st configFile true); [eauto|].
    destruct (ReadFile st configFile) as [|data]; [eauto|].
    destruct (Unmarshal data) as [|snapshot]; [eauto|].
    rewrite (materialize_existing _ _ _ _ Hstat). eauto.
  - intros data snapshot -> -> ->.
    exact (materialize_existing _ _ _ _ Hstat).
Qed.

(** C10: when [os.Stat] of the destination fails, with whatever error,
    [restoreProject] does not return it: it goes on to create the
    destination and then the entries of the snapshot. *)
Theorem restore_stat_error_means_absent configFile destination st e data
        snapshot :
  validatePath st configFile true = None ->
  ReadFile st configFile = inr data ->
  Unmarshal data = inr snapshot ->
  Stat st destination = inl e ->
  restoreProject configFile destination st
  = match MkdirAll st destination dirPerms with
    | (st', Some e') => (st', Some (CreateDestinationFailed e'))
    | (st', None) => restoreFiles destination (elements (Files snapshot)) st'
    end.
Proof.
  intros Hv Hr Hu Hs. unfold restoreProject, materialize.
  now rewrite Hv, Hr, Hu, Hs.
Qed.

(** A directory entry is created by [os.MkdirAll] with the mode stored in
    the entry, whatever it is. *)
Lemma restoreFile_directory destination file st :
  IsDir file = true ->
  restoreFile destination file st
  = match MkdirAll st (Join destination (FromSlash (Path file)))
                   (Mode file) with
    | (st', Some e) => (st', Some (CreateDirFailed (Path file) e))
    | (st', None) => (st', None)
    end.
Proof. intros H. unfold restoreFile. now rewrite H. Qed.

(** A file entry without a mode is written with the default mode. *)
Lemma restoreFile_file_default_mode destination path contents st st' :
  MkdirAll st (Dir_ (Join destination (FromSlash path))) dirPerms
  = (st', None) ->
  restoreFile destination (mkFileInfo path contents false 0) st
  = match WriteFile st' (Join destination (FromSlash path)) contents
                    defaultPerms with
    | (st'', Some e) => (st'', Some (WriteFileFailed path e))
    | (st'', None) => (st'', None)
    end.
Proof. intros H. unfold restoreFile. cbn. now rewrite H. Qed.

End Operations.

(** ** Runs on the scripted runtime *)

(** C4: restoring a snapshot whose directory entry [d] has no mode calls
    [os.MkdirAll] on it with mode 0, not with the default directory mode
    0755 that the destination gets. *)
Theorem restore_directory_without_mode :
  restoreProject (rt := Scripted.runtime Scripted.dirWithoutMode)
                 "snapshot.json" "out" []
  = ([Scripted.OpMkdirAll "out" 493; Scripted.OpMkdirAll "out/d" 0], None).
Proof. reflexivity. Qed.

Example loadGitignore_scenario :
  loadGitignore (rt := Scripted.runtime
                         (Scripted.source
                            (inr ["# skip"; "node_modules"; ""; "*.log"])
                            Scripted.scenario)) [] "src"
  = [".git"; "node_modules"; "*.log"].
Proof. reflexivity. Qed.

Example cloneProject_scenario :
  let rt := Scripted.runtime
              (Scripted.source (inr ["# skip"; "node_modules"; "*.log"])
                               Scripted.scenario) in
  WalkDir [".git"; "node_modules"; "*.log"] [] "src"
  = ([mkFileInfo "keep.txt" "keep" false 420], None)
  /\ cloneProject [] "src" "snapshot.json" []
     = ([Scripted.OpWriteFile "snapshot.json" "{}" 420], None).
Proof. split; reflexivity. Qed.

Lemma ignored_entry_pruned_witness :
  let rt := Scripted.runtime (Scripted.source (inl ErrNotExist) []) in
  let P := [".git"; "*.log"] in
  let d := Dir ".git" Scripted.directory
               [File "HEAD" (Scripted.regular 5) (inl ErrPermission)] None in
  let pre := [File ".env" (Scripted.regular 1) (inr "x")] in
  let post := [File "a.log" (Scripted.regular 1) (inr "l");
               File "b.txt" (Scripted.regular 1) (inr "b")] in
  String.eqb (relJoin "." (Name d)) "." = false
  /\ shouldIgnore (relJoin "." (Name d)) P = true
  /\ walkDir P "src/.git" ".git" d [] = ([], Continue)
  /\ walkDir P "src" "." (Dir "src" Scripted.directory (pre ++ d :: post) None)
             []
     = walkDir P "src" "." (Dir "src" Scripted.directory (pre ++ post) None)
               [].
Proof.
  intros rt P d pre post.
  assert (H1 : String.eqb (relJoin "." (Name d)) "." = false) by reflexivity.
  assert (H2 : shouldIgnore (relJoin "." (Name d)) P = true) by reflexivity.
  destruct (ignored_entry_pruned P "src" "." "src" Scripted.directory None
                                 pre d post [] H1 H2) as (_ & H3 & H4).
  repeat split; assumption.
Defined.


Lemma empty_pattern_ignores_everything_witness :
  let rt := Scripted.runtime (Scripted.source (inl ErrNotExist) []) in
  let P := [".git"; ""] in
  In "" P
  /\ shouldIgnore "src/main.go" P = true
  /\ walkDir P "src/lib" "lib"
             (Dir "lib" Scripted.directory
                  [File "a.txt" (Scripted.regular 1) (inr "a")] None) []
     = ([], Continue).
Proof.
  intros rt P.
  assert (Hin : In "" P) by (right; left; reflexivity).
  destruct (empty_pattern_ignores_everything P Hin) as [H1 H2].
  split; [exact Hin | split].
  - apply H1.
  - apply H2. reflexivity.
Defined.


Example cloneProject_unreadable_file :
  cloneProject (rt := Scripted.runtime
                        (Scripted.source (inl ErrNotExist)
                                         Scripted.unreadable))
               [] "src" "snapshot.json" []
  = ([], Some (ReadFailed "src/lib/a.txt" ErrPermission)).
Proof. reflexivity. Qed.

Lemma restore_existing_destination_witness :
  let rt := Scripted.runtime
              (Scripted.withDestination Scripted.directory) in
  Stat [] "out" = Scripted.directory
  /\ restoreProject "snapshot.json" "out" []
     = ([], Some (DestinationExists "out")).
Proof.
  intros rt.
  assert (Hs : Stat [] "out" = inr (mkFileStat true 4096 493))
    by reflexivity.
  split; [exact Hs|].
  exact (proj2 (restore_existing_destination (rt := rt)
                  "snapshot.json" "out" [] _ Hs)
               "doc"
               (mkProjectSnapshot "1.0.0" (Some [mkFileInfo "d" "" true 0]))
               eq_refl eq_refl eq_refl).
Defined.

Lemma restore_stat_error_means_absent_witness :
  let rt := Scripted.runtime
              (Scripted.withDestination (inl ErrPermission)) in
  Stat [] "out" = inl ErrPermission
  /\ restoreProject "snapshot.json" "out" []
     = ([Scripted.OpMkdirAll "out" 493; Scripted.OpMkdirAll "out/d" 0], None).
Proof.
  intros rt.
  assert (Hs : Stat [] "out" = inl ErrPermission) by reflexivity.
  split; [exact Hs|].
  exact (restore_stat_error_means_absent (rt := rt)
           "snapshot.json" "out" [] ErrPermission "doc"
           (mkProjectSnapshot "1.0.0" (Some [mkFileInfo "d" "" true 0]))
           eq_refl eq_refl eq_refl Hs).
Defined.

(** * Further properties of the program *)

(** ** Ignore rules *)

(** X1: the pattern lists add up: a path is ignored under two lists put
    together exactly when it is ignored under one of them.  So the patterns
    given on the command line, which [cloneProject] appends to those of the
    rule file, never bring back a path that the rule file ignores. *)
Theorem shouldIgnore_app (p : string) (P Q : list string) :
  shouldIgnore p (P ++ Q) = shouldIgnore p P || shouldIgnore p Q.
Proof.
  induction P as [|pat P IH]; [reflexivity|].
  cbn [app shouldIgnore].
  destruct (Match pat (Base p)) as [[|]|]; auto.
  destruct (Contains (ToSlash p) pat); auto.
Qed.

Lemma scanPatterns_spec {rt : Runtime} (lines : list string) (pat : string) :
  In pat (scanPatterns lines) <->
  exists line, In line lines /\ pat = TrimSpace line
               /\ is_empty pat = false /\ HasPrefix pat "#" = false.
Proof.
  induction lines as [|text rest IH]; cbn [scanPatterns].
  - split; [intros [] | intros (? & [] & _)].
  - destruct (is_empty (TrimSpace text) || HasPrefix (TrimSpace text) "#")
      eqn:Hskip.
    + rewrite IH. split.
      * intros (line & Hin & H). exists line. split; [right|]; assumption.
      * intros (line & [<- | Hin] & -> & He & Hc).
        -- rewrite He, Hc in Hskip. discriminate.
        -- exists line. auto.
    + apply orb_false_iff in Hskip. destruct Hskip as [He Hc].
      cbn [In]. rewrite IH. split.
      * intros [<- | (line & Hin & H)].
        -- exists text. repeat split; auto.
        -- exists line. split; [right|]; assumption.
      * intros (line & [<- | Hin] & -> & He' & Hc').
        -- left; reflexivity.
        -- right. exists line. auto.
Qed.

(** X2: the patterns that [loadGitignore] returns are [".git"] followed by
    patterns of the rule file; without a rule file that can be opened they
    are [".git"] alone; and a pattern of the rule file is a trimmed line of
    it that is not empty and does not begin with a [#], so a blank line or a
    comment never becomes a pattern. *)
Theorem loadGitignore_patterns {rt : Runtime} (st : fs) (source : string) :
  exists fromFile,
    loadGitignore st source = ".git" :: fromFile
    /\ (forall e, OpenLines st (Join source ".gitignore") = inl e ->
                  fromFile = [])
    /\ (forall pat, In pat fromFile ->
          is_empty pat = false /\ HasPrefix pat "#" = false
          /\ exists lines line,
               OpenLines st (Join source ".gitignore") = inr lines
               /\ In line lines /\ pat = TrimSpace line).
Proof.
  unfold loadGitignore.
  destruct (OpenLines st (Join source ".gitignore")) as [e | lines].
  - exists []. split; [reflexivity|]. split; [reflexivity|].
    intros pat0 [].
  - exists (scanPatterns lines). split; [reflexivity|].
    split; [discriminate|].
    intros pat0 H. apply scanPatterns_spec in H.
    destruct H as (line & Hin & Heq & He & Hc).
    split; [exact He|]. split; [exact Hc|]. exists lines, line. auto.
Qed.

(** ** The snapshot built by the walk *)

Lemma ToSlash_id (path : string) : ToSlash path = path.
Proof.
  induction path as [|c t IH]; [reflexivity|]. cbn [ToSlash]. rewrite IH.
  destruct (Ascii.eqb_spec c Separator) as [-> |]; reflexivity.
Qed.

Lemma HasPrefix_app (a b : string) : HasPrefix (a ++ b) a = true.
Proof. apply HasPrefix_spec. exists b. reflexivity. Qed.

Lemma string_app_assoc (a b c : string) :
  ((a ++ b) ++ c)%string = (a ++ (b ++ c))%string.
Proof. induction a as [|x a IH]; simpl; [reflexivity | now rewrite IH]. Qed.

Lemma HasPrefix_trans (s a b : string) :
  HasPrefix s (a ++ b) = true -> HasPrefix s a = true.
Proof.
  rewrite !HasPrefix_spec. intros [t ->]. exists (b ++ t)%string.
  apply string_app_assoc.
Qed.

Section Snapshot.

Context {rt : Runtime}.
Variable P : list string.

(** The function only appends to the files it is given. *)
Lemma walkFn_acc path rel d err (files : list FileInfo) :
  walkFn P path rel d err files
  = ((files ++ fst (walkFn P path rel d err []))%list,
     snd (walkFn P path rel d err [])).
Proof.
  unfold walkFn.
  repeat match goal with
         | |- context [match ?x with _ => _ end] => destruct x
         end; cbn [fst snd app]; rewrite ?app_nil_r; reflexivity.
Qed.

Lemma walkEntries_acc path rel entries :
  Forall (fun d => forall path rel files,
              walkDir P path rel d files
              = ((files ++ fst (walkDir P path rel d []))%list,
                 snd (walkDir P path rel d []))) entries ->
  forall files,
    walkEntries (walkDir P) path rel entries files
    = ((files ++ fst (walkEntries (walkDir P) path rel entries []))%list,
       snd (walkEntries (walkDir P) path rel entries [])).
Proof.
  induction 1 as [|d1 rest Hd1 _ IH]; intros files; cbn [walkEntries].
  - cbn [fst snd]. now rewrite app_nil_r.
  - rewrite (Hd1 _ _ files).
    destruct (walkDir P (Join path (Name d1)) (relJoin rel (Name d1)) d1 [])
      as [new [| |e]]; cbn [fst snd app]; try reflexivity.
    rewrite (IH (files ++ new)%list), (IH new). cbn [fst snd].
    now rewrite app_assoc.
Qed.

(** The walk of an entry only appends to the files it is given. *)
Lemma walkDir_acc (d : node) :
  forall path rel files,
    walkDir P path rel d files
    = ((files ++ fst (walkDir P path rel d []))%list,
       snd (walkDir P path rel d [])).
Proof.
  induction d as [name info data | name info entries readdir IH]
    using node_induction; intros path rel files;
    rewrite !walkDir_eq; rewrite (walkFn_acc path rel _ None files).
  - destruct (walkFn P path rel (File name info data) None [])
      as [new [| |e]]; cbn [fst snd NodeIsDir]; rewrite ?app_nil_r;
      reflexivity.
  - destruct (walkFn P path rel (Dir name info entries readdir) None [])
      as [new [| |e]]; cbn [fst snd NodeIsDir app]; try reflexivity.
    destruct readdir as [e|]; [reflexivity|].
    rewrite (walkEntries_acc path rel entries IH (files ++ new)%list),
      (walkEntries_acc path rel entries IH new).
    cbn [fst snd]. now rewrite app_assoc.
Qed.

(** X3: the walk of an entry only appends to the snapshot: what was
    collected before stays in front unchanged, and the entries added and
    the way the walk ends (going on, or the error) are the same whatever
    was collected before. *)
Theorem walkDir_appends (d : node) (path rel : string)
        (files1 files2 : list FileInfo) :
  exists new,
    fst (walkDir P path rel d files1) = (files1 ++ new)%list
    /\ fst (walkDir P path rel d files2) = (files2 ++ new)%list
    /\ snd (walkDir P path rel d files1) = snd (walkDir P path rel d files2).
Proof.
  exists (fst (walkDir P path rel d [])).
  rewrite (walkDir_acc d path rel files1), (walkDir_acc d path rel files2).
  repeat split.
Qed.

Lemma walkFn_recorded path rel d err new r :
  walkFn P path rel d err [] = (new, r) -> Forall (recorded P) new.
Proof.
  unfold walkFn. destruct err; [intros [= <- _]; constructor|].
  destruct (String.eqb_spec rel ".") as [|Hrel];
    [intros [= <- _]; constructor|].
  destruct (shouldIgnore rel P) eqn:Hign.
  { destruct (NodeIsDir d); intros [= <- _]; constructor. }
  destruct (Info d) as [e|info]; [intros [= <- _]; constructor|].
  assert (Hrec : forall contents,
             (NodeIsDir d = true -> contents = "") ->
             recorded P (mkFileInfo (ToSlash rel) contents (NodeIsDir d)
                                    (Perm info))).
  { intros contents Hc. unfold recorded; cbn [Path IsDir Contents].
    rewrite ToSlash_id. auto. }
  destruct (NodeIsDir d) eqn:Hdir; cbn [negb app].
  - intros [= <- _]. constructor; [|constructor].
    apply Hrec. reflexivity.
  - destruct (maxFileSize <? Size info); [intros [= <- _]; constructor|].
    destruct (Data d) as [e|data]; intros [= <- _]; constructor;
      [|constructor].
    unfold withContents; cbn [Path IsDir Mode].
    apply Hrec. discriminate.
Qed.

Lemma walkEntries_Forall (Q : FileInfo -> Prop) path rel entries :
  Forall (fun d => forall path rel new r,
              walkDir P path rel d [] = (new, r) -> Forall Q new) entries ->
  forall new r,
    walkEntries (walkDir P) path rel entries [] = (new, r) -> Forall Q new.
Proof.
  induction 1 as [|d1 rest Hd1 Hrest IH]; intros new r; cbn [walkEntries].
  - intros [= <- _]. constructor.
  - destruct (walkDir P (Join path (Name d1)) (relJoin rel (Name d1)) d1 [])
      as [new1 [| |e]] eqn:E1; try (intros [= <- _]; eapply Hd1; eassumption).
    rewrite (walkEntries_acc path rel rest).
    + destruct (walkEntries (walkDir P) path rel rest []) as [new2 r2] eqn:E2.
      cbn [fst snd]. intros [= <- _]. apply Forall_app. split.
      * eapply Hd1; eassumption.
      * eapply IH; reflexivity.
    + clear. induction rest; constructor; auto. intros; apply walkDir_acc.
Qed.

Lemma walkDir_recorded_at (d : node) :
  forall path rel new r,
    walkDir P path rel d [] = (new, r) -> Forall (recorded P) new.
Proof.
  induction d as [name info data | name info entries readdir IH]
    using node_induction; intros path rel new r; rewrite walkDir_eq.
  - destruct (walkFn P path rel (File name info data) None [])
      as [new1 r1] eqn:E. apply walkFn_recorded in E.
    destruct r1; cbn [NodeIsDir]; intros [= <- _]; exact E.
  - destruct (walkFn P path rel (Dir name info entries readdir) None [])
      as [new1 r1] eqn:E. apply walkFn_recorded in E.
    destruct r1; cbn [NodeIsDir]; try (intros [= <- _]; exact E).
    destruct readdir as [e|]; [intros [= <- _]; exact E|].
    rewrite (walkEntries_acc path rel entries).
    + destruct (walkEntries (walkDir P) path rel entries []) as [new2 r2]
        eqn:E2. cbn [fst snd]. intros [= <- _]. apply Forall_app.
      split; [exact E|].
      exact (walkEntries_Forall _ path rel entries IH _ _ E2).
    + clear. induction entries; constructor; auto.
      intros; apply walkDir_acc.
Qed.

(** X4: every entry that the walk puts in the snapshot has a path that the
    patterns do not ignore and that is not the root ["."], and an entry for
    a directory has no contents. *)
Theorem walkDir_recorded (d : node) (path rel : string) :
  Forall (recorded P) (fst (walkDir P path rel d [])).
Proof.
  destruct (walkDir P path rel d []) as [new r] eqn:E.
  exact (walkDir_recorded_at d path rel new r E).
Qed.

Lemma relJoin_below (rel name : string) :
  String.eqb rel "." = false ->
  String.eqb (relJoin rel name) "." = false
  /\ HasPrefix (relJoin rel name) (rel ++ String Separator "") = true
  /\ (forall s, HasPrefix s (relJoin rel name ++ String Separator "") = true
                -> HasPrefix s (rel ++ String Separator "") = true).
Proof.
  intros Hrel. unfold relJoin. rewrite Hrel.
  assert (E : (rel ++ String Separator name)%string
              = ((rel ++ String Separator "") ++ name)%string).
  { rewrite string_app_assoc. reflexivity. }
  split; [|split].
  - apply String.eqb_neq. clear.
    destruct rel as [|c [|c' r]]; discriminate.
  - rewrite E. apply HasPrefix_app.
  - intros s Hs. apply HasPrefix_trans in Hs. rewrite E in Hs.
    now apply HasPrefix_trans in Hs.
Qed.

Lemma walkFn_at path rel d err new r :
  walkFn P path rel d err [] = (new, r) ->
  Forall (fun f => Path f = rel) new.
Proof.
  unfold walkFn.
  repeat match goal with
         | |- context [match ?x with _ => _ end] => destruct x
         end; intros [= <- _]; repeat constructor; apply ToSlash_id.
Qed.

(** The entries recorded by the walk of an entry at [rel] are at [rel] or
    below it. *)
Lemma walkDir_at_or_below (d : node) :
  forall path rel new r,
    String.eqb rel "." = false ->
    walkDir P path rel d [] = (new, r) ->
    Forall (fun f => Path f = rel \/ below rel f) new.
Proof.
  induction d as [name info data | name info entries readdir IH]
    using node_induction; intros path rel new r Hrel; rewrite walkDir_eq.
  - destruct (walkFn P path rel (File name info data) None [])
      as [new1 r1] eqn:E. apply walkFn_at in E.
    destruct r1; cbn [NodeIsDir]; intros [= <- _];
      eapply Forall_impl; try exact E; auto.
  - destruct (walkFn P path rel (Dir name info entries readdir) None [])
      as [new1 r1] eqn:E. apply walkFn_at in E.
    assert (E' : Forall (fun f => Path f = rel \/ below rel f) new1)
      by (eapply Forall_impl; try exact E; auto).
    destruct r1; cbn [NodeIsDir]; try (intros [= <- _]; exact E').
    destruct readdir as [e|]; [intros [= <- _]; exact E'|].
    rewrite (walkEntries_acc path rel entries).
    2:{ clear. induction entries; constructor; auto.
        intros; apply walkDir_acc. }
    intros [= <- _]. apply Forall_app. split; [exact E'|].
    clear E E' new1. apply Forall_impl with (P := below rel); [auto|].
    induction IH as [|d1 rest Hd1 _ IHrest]; cbn [walkEntries fst].
    { constructor. }
    destruct (relJoin_below rel (Name d1) Hrel) as (H1 & H2 & H3).
    destruct (walkDir P (Join path (Name d1)) (relJoin rel (Name d1)) d1 [])
      as [got r1] eqn:E1.
    assert (B1 : Forall (below rel) got).
    { specialize (Hd1 _ _ _ _ H1 E1). eapply Forall_impl; [|exact Hd1].
      intros f [Hf | Hf]; unfold below in *.
      - rewrite Hf. exact H2.
      - now apply H3. }
    destruct r1; cbn [fst]; try exact B1.
    rewrite (walkEntries_acc path rel rest).
    2:{ clear. induction rest; constructor; auto.
        intros; apply walkDir_acc. }
    cbn [fst]. apply Forall_app. split; [exact B1 | exact IHrest].
Qed.

Lemma walkEntries_below path rel entries :
  String.eqb rel "." = false ->
  Forall (below rel) (fst (walkEntries (walkDir P) path rel entries [])).
Proof.
  intros Hrel. induction entries as [|d1 rest IH]; cbn [walkEntries fst].
  { constructor. }
  destruct (relJoin_below rel (Name d1) Hrel) as (H1 & H2 & H3).
  destruct (walkDir P (Join path (Name d1)) (relJoin rel (Name d1)) d1 [])
    as [new1 r1] eqn:E1.
  assert (B1 : Forall (below rel) new1).
  { pose proof (walkDir_at_or_below d1 _ _ _ _ H1 E1) as Hd1.
    eapply Forall_impl; [|exact Hd1].
    intros f [Hf | Hf]; unfold below in *.
    - rewrite Hf. exact H2.
    - now apply H3. }
  destruct r1; cbn [fst]; try exact B1.
  rewrite (walkEntries_acc path rel rest).
  2:{ clear. induction rest; constructor; auto.
      intros; apply walkDir_acc. }
  cbn [fst]. apply Forall_app. split; [exact B1 | exact IH].
Qed.

(** X5: a directory that is kept comes before everything recorded below it:
    the walk of the directory at [rel] records first the entry of the
    directory itself, with the permission bits of its [Info()] and no
    contents, and after it only entries whose paths begin with [rel] and a
    slash. *)
Theorem walkDir_parent_first path rel name info entries readdir :
  String.eqb rel "." = false ->
  shouldIgnore rel P = false ->
  exists rest,
    fst (walkDir P path rel (Dir name (inr info) entries readdir) [])
    = mkFileInfo rel "" true (Perm info) :: rest
    /\ Forall (below rel) rest.
Proof.
  intros Hrel Hign. rewrite walkDir_eq. unfold walkFn.
  rewrite Hrel, Hign. cbn [Info NodeIsDir negb app]. rewrite ToSlash_id.
  destruct readdir as [e|].
  - exists []. split; [reflexivity | constructor].
  - rewrite (walkEntries_acc path rel entries).
    2:{ clear. induction entries; constructor; auto.
        intros; apply walkDir_acc. }
    cbn [fst app]. eexists. split; [reflexivity|].
    now apply walkEntries_below.
Qed.

End Snapshot.

(** ** Path validation *)

(** X6: [validatePath] accepts a path exactly when it is not empty and, if
    it must exist, [os.Stat] succeeds on it; the empty path is refused
    before any system call, and a failed [os.Stat] is reported as a missing
    path exactly when the error is a not-exist error. *)
Theorem validatePath_spec {rt : Runtime} (st : fs) (path : string)
        (mustExist : bool) :
  (validatePath st path mustExist = None <->
   path <> "" /\ (mustExist = true -> exists info, Stat st path = inr info))
  /\ (validatePath st path mustExist = Some PathEmpty <-> path = "")
  /\ (forall e, Stat st path = inl e -> path <> "" ->
                validatePath st path true
                = Some (if IsNotExist e then PathNotExist path
                        else CannotAccess path e)).
Proof.
  unfold validatePath. split; [|split].
  - destruct path as [|c t]; cbn [is_empty].
    + split; [discriminate | intros [H _]; now destruct H].
    + destruct mustExist.
      * destruct (Stat st (String c t)) as [e|info].
        -- split; [destruct (IsNotExist e); discriminate|].
           intros [_ H]. destruct (H eq_refl) as [info Hinfo]. discriminate.
        -- split; [|reflexivity]. intros _. split; [discriminate | eauto].
      * split; [|reflexivity]. intros _. split; discriminate.
  - destruct path as [|c t]; cbn [is_empty].
    + split; reflexivity.
    + split; [|discriminate]. destruct mustExist; [|discriminate].
      destruct (Stat st (String c t)) as [e|info]; [|discriminate].
      destruct (IsNotExist e); discriminate.
  - intros e He Hne. destruct path as [|c t]; [now destruct Hne|].
    cbn [is_empty]. rewrite He. now destruct (IsNotExist e).
Qed.

(** ** Restore *)

Section Restore.

Context {rt : Runtime}.

(** X7: entries are restored one after the other and the first failure
    ends the restore: restoring two lists in a row is restoring the first
    and, only if that succeeded, the second from the state it reached.  What
    was written before a failure stays. *)
Theorem restoreFiles_app destination (files1 files2 : list FileInfo) st :
  restoreFiles destination (files1 ++ files2) st
  = match restoreFiles destination files1 st with
    | (st', Some e) => (st', Some e)
    | (st', None) => restoreFiles destination files2 st'
    end.
Proof.
  revert st; induction files1 as [|file rest IH]; intros st;
    cbn [app restoreFiles]; [reflexivity|].
  destruct (restoreFile destination file st) as [st' [e|]]; auto.
Qed.

Lemma performAll_app (ops1 ops2 : list Scripted.op) st :
  performAll (ops1 ++ ops2) st
  = match performAll ops1 st with
    | (st', Some e) => (st', Some e)
    | (st', None) => performAll ops2 st'
    end.
Proof.
  revert st; induction ops1 as [|o rest IH]; intros st;
    cbn [app performAll]; [reflexivity|].
  destruct (perform o st) as [st' [e|]]; auto.
Qed.

Lemma restoreFile_plan destination file st :
  fst (restoreFile destination file st)
  = fst (performAll (entryOps destination file) st)
  /\ match snd (restoreFile destination file st),
           snd (performAll (entryOps destination file) st) with
     | Some err, Some e => Unwrap err = Some e
     | None, None => True
     | _, _ => False
     end.
Proof.
  unfold restoreFile, entryOps. destruct (IsDir file);
    cbn [performAll perform].
  - destruct (MkdirAll st _ (Mode file)) as [st' [e|]]; split; reflexivity.
  - destruct (MkdirAll st _ dirPerms) as [st' [e|]]; [split; reflexivity|].
    destruct (WriteFile st' _ (Contents file) _) as [st'' [e|]];
      split; reflexivity.
Qed.

Lemma restoreFiles_plan destination files :
  forall st,
    fst (restoreFiles destination files st)
    = fst (performAll (flat_map (entryOps destination) files) st)
    /\ match snd (restoreFiles destination files st),
             snd (performAll (flat_map (entryOps destination) files) st) with
       | Some err, Some e => Unwrap err = Some e
       | None, None => True
       | _, _ => False
       end.
Proof.
  induction files as [|file rest IH]; intros st;
    cbn [restoreFiles flat_map]; [split; [reflexivity | exact I]|].
  rewrite performAll_app.
  destruct (restoreFile_plan destination file st) as [H1 H2].
  destruct (restoreFile destination file st) as [st1 r1].
  destruct (performAll (entryOps destination file) st) as [st2 r2].
  cbn [fst snd] in H1, H2. subst st2.
  destruct r1 as [err|], r2 as [e|]; try contradiction; cbn [fst snd].
  - split; [reflexivity | exact H2].
  - apply IH.
Qed.

(** X8: once the snapshot is decoded and [os.Stat] of the destination has
    failed, a restore is the run of a fixed list of calls, up to the first
    that fails: [MkdirAll] of the destination with mode 0755, then for each
    entry in order either [MkdirAll] of its path with the stored mode (a
    directory) or [MkdirAll] of the parent with mode 0755 and [WriteFile] of
    the contents with the stored mode, or 0644 when that is zero (a file).
    The restore ends in the same state as the run, fails exactly when the
    run does, and then wraps the error of the call that failed. *)
Theorem restoreProject_plan configFile destination st data snapshot e :
  validatePath st configFile true = None ->
  ReadFile st configFile = inr data ->
  Unmarshal data = inr snapshot ->
  Stat st destination = inl e ->
  let run :=
    performAll (Scripted.OpMkdirAll destination dirPerms
                  :: flat_map (entryOps destination)
                              (elements (Files snapshot))) st in
  fst (restoreProject configFile destination st) = fst run
  /\ (snd (restoreProject configFile destination st) = None
      <-> snd run = None)
  /\ forall err, snd (restoreProject configFile destination st) = Some err ->
                 Unwrap err = snd run.
Proof.
  intros Hv Hr Hu Hs. cbv zeta. unfold restoreProject, materialize.
  rewrite Hv, Hr, Hu, Hs. cbn [performAll perform].
  destruct (MkdirAll st destination dirPerms) as [st1 [e1|]]; cbn [fst snd].
  - split; [reflexivity|]. split; [split; discriminate|].
    intros err [= <-]. reflexivity.
  - destruct (restoreFiles_plan destination (elements (Files snapshot)) st1)
      as [H1 H2].
    destruct (restoreFiles destination (elements (Files snapshot)) st1)
      as [st2 r2].
    destruct (performAll _ st1) as [st3 r3]. cbn [fst snd] in *.
    destruct r2 as [err|], r3 as [e3|]; try contradiction.
    + split; [exact H1|]. split; [split; discriminate|].
      intros err' [= <-]. exact H2.
    + split; [exact H1|]. split; [split; reflexivity | discriminate].
Qed.

(** X9: [restoreProject] changes nothing in the file system unless the
    snapshot file passed the validation, was read and decoded, and
    [os.Stat] of the destination failed; in every other case it returns an
    error from the state it was called in. *)
Theorem restoreProject_writes_only_after_checks configFile destination st :
  (fst (restoreProject configFile destination st) = st
   /\ snd (restoreProject configFile destination st) <> None)
  \/ exists data snapshot e,
       validatePath st configFile true = None
       /\ ReadFile st configFile = inr data
       /\ Unmarshal data = inr snapshot
       /\ Stat st destination = inl e.
Proof.
  unfold restoreProject, materialize.
  destruct (validatePath st configFile true) as [ev|] eqn:Hv;
    [left; split; [reflexivity | discriminate]|].
  destruct (ReadFile st configFile) as [er|data] eqn:Hr;
    [left; split; [reflexivity | discriminate]|].
  destruct (Unmarshal data) as [ep|snapshot] eqn:Hu;
    [left; split; [reflexivity | discriminate]|].
  destruct (Stat st destination) as [e|info] eqn:Hs.
  - right. exists data, snapshot, e. auto.
  - left; split; [reflexivity | discriminate].
Qed.

End Restore.

(** ** Capture *)

(** X10: [cloneProject] makes at most one write.  Either it returns an error
    from the state it was called in, or the source is a non-empty path that
    [os.Stat] reports as a directory, the walk succeeded, and the single
    write is that of the output file, with mode 0644, holding the document
    of the snapshot with version 1.0.0 and the files the walk collected; an
    error of that write is the only error left. *)
Theorem cloneProject_single_write {rt : Runtime} ignorePatterns source
        outputFile st :
  (fst (cloneProject ignorePatterns source outputFile st) = st
   /\ snd (cloneProject ignorePatterns source outputFile st) <> None)
  \/ exists info files,
       source <> ""
       /\ Stat st source = inr info /\ StatIsDir info = true
       /\ WalkDir (loadGitignore st source ++ ignorePatterns) st source
          = (files, None)
       /\ cloneProject ignorePatterns source outputFile st
          = (fst (WriteFile st outputFile
                            (MarshalIndent
                               (mkProjectSnapshot version (Some files)))
                            defaultPerms),
             option_map WriteOutputFailed
                        (snd (WriteFile st outputFile
                                (MarshalIndent
                                   (mkProjectSnapshot version (Some files)))
                                defaultPerms))).
Proof.
  unfold cloneProject.
  destruct (validatePath st source true) as [ev|] eqn:Hv;
    [left; split; [reflexivity | discriminate]|].
  destruct (Stat st source) as [es|info] eqn:Hs;
    [left; split; [reflexivity | discriminate]|].
  destruct (StatIsDir info) eqn:Hd; cbn [negb];
    [|left; split; [reflexivity | discriminate]].
  destruct (WalkDir (loadGitignore st source ++ ignorePatterns) st source)
    as [files [e|]] eqn:Hw; [left; split; [reflexivity | discriminate]|].
  right. exists info, files. repeat split; auto.
  - intros ->. discriminate Hv.
  - destruct (WriteFile st outputFile _ defaultPerms) as [st' [e|]];
      reflexivity.
Qed.

(** ** The decoder *)






Lemma decodeMembers_skip {A : Type}
      (member : A -> string * json.value -> json.error + A)
      (m : string * json.value) (before after : list (string * json.value)) :
  (forall cur, member cur m = inr cur) ->
  forall cur,
    json.decodeMembers member cur (before ++ m :: after)
    = json.decodeMembers member cur (before ++ after).
Proof.
  intros Hm. induction before as [|m0 rest IH]; intros cur;
    cbn [app json.decodeMembers].
  - now rewrite Hm.
  - destruct (member cur m0); auto.
Qed.

(** X12: a member with a key that names no field of an entry is skipped,
    wherever it stands in the object and whatever its value: the entry
    decodes as it does without that member. *)
Theorem decodeFileInfo_unknown_member (key : string) (v : json.value)
        (before after : list (string * json.value)) :
  unknownKey key = true ->
  json.decodeFileInfo (json.Object (before ++ (key, v) :: after))
  = json.decodeFileInfo (json.Object (before ++ after)).
Proof.
  unfold unknownKey. rewrite !andb_true_iff, !negb_true_iff.
  intros [[[H1 H2] H3] H4]. cbn [json.decodeFileInfo].
  apply decodeMembers_skip. intros cur. unfold json.decodeFileInfoMember.
  now rewrite H1, H2, H3, H4.
Qed.

Lemma decodeFileInfo_unknown_member_witness :
  unknownKey "size" = true
  /\ json.decodeFileInfo
       (json.Object [("path", json.Str "a"); ("size", json.Number (-1));
                     ("is_dir", json.Bool false)])
     = json.decodeFileInfo
         (json.Object [("path", json.Str "a"); ("is_dir", json.Bool false)]).
Proof.
  split; [reflexivity|].
  exact (decodeFileInfo_unknown_member
           "size" (json.Number (-1)) [("path", json.Str "a")]
           [("is_dir", json.Bool false)] eq_refl).
Defined.

Lemma is_empty_app (a b : string) :
  is_empty (a ++ b) = is_empty a && is_empty b.
Proof. destruct a; reflexivity. Qed.

(** The encoder keeps a string that is not empty not empty. *)
Lemma is_empty_coerce (s : string) : is_empty (json.coerce s) = is_empty s.
Proof.
  destruct s as [|c s]; [reflexivity|].
  unfold json.coerce. cbn [String.length json.coerceLoop is_empty].
  pose proof (DecodeRuneInString_width (String c s) eq_refl) as Hw.
  destruct (utf8.DecodeRuneInString (String c s)) as [r k]. cbn [snd] in Hw.
  destruct ((r =? utf8.RuneError) && Nat.eqb k 1); rewrite is_empty_app.
  - reflexivity.
  - destruct k as [|k]; [lia | reflexivity].
Qed.

Lemma decodeFileInfo_encodeFileInfo_coerced (f : FileInfo) :
  uint32_range (Mode f) = true ->
  json.decodeFileInfo (json.encodeFileInfo f) = inr (coerceFile f).
Proof.
  destruct f as [path contents isdir mode].
  unfold coerceFile, json.encodeFileInfo; cbn [Path Contents IsDir Mode].
  intros Hm.
  destruct (is_empty contents) eqn:Hc.
  - destruct contents; [|discriminate].
    destruct (Z.eqb_spec mode 0) as [-> | Hz];
      cbn -[uint32_range json.coerce]; try rewrite Hm; reflexivity.
  - destruct (Z.eqb_spec mode 0) as [-> | Hz];
      cbn -[uint32_range json.coerce]; try rewrite Hm; reflexivity.
Qed.

(** X13: for any snapshot whose modes are in the range of [uint32], decoding
    its document gives the snapshot with every string as the encoder writes
    it, that is with each byte that is not part of a well-formed UTF-8
    sequence replaced by U+FFFD; nothing else is lost, and an empty file
    stays an empty file. *)
Theorem decode_encode_coerced (s : ProjectSnapshot) :
  Forall (fun f => uint32_range (Mode f) = true) (elements (Files s)) ->
  json.decode (json.encode s) = inr (coerceSnapshot s).
Proof.
  destruct s as [v files]. unfold coerceSnapshot, json.encode;
    cbn [Version Files]. intros Hm.
  destruct files as [l|]; cbn [elements option_map] in *; [|reflexivity].
  cbn -[json.decodeElems json.encodeFileInfo json.coerce].
  assert (E : json.decodeElems (map json.encodeFileInfo l)
              = inr (map coerceFile l)).
  { induction Hm as [|f l Hf _ IH]; [reflexivity|].
    cbn [map json.decodeElems].
    now rewrite (decodeFileInfo_encodeFileInfo_coerced _ Hf), IH. }
  now rewrite E.
Qed.

Lemma decode_encode_coerced_witness :
  let s := mkProjectSnapshot version
             (Some [mkFileInfo "blob" (String (ascii_of_nat 255) "a") false
                               420;
                    mkFileInfo "empty" "" false 0]) in
  json.decode (json.encode s)
  = inr (mkProjectSnapshot version
           (Some [mkFileInfo "blob" (json.replacement ++ "a") false 420;
                  mkFileInfo "empty" "" false 0])).
Proof.
  intros s.
  assert (H : Forall (fun f => uint32_range (Mode f) = true)
                     (elements (Files s))).
  { repeat constructor. }
  exact (decode_encode_coerced s H).
Defined.

(** ** The command line *)

Lemma Split_not_nil (s : string) (sep : ascii) : Split s sep <> [].
Proof.
  destruct s as [|c t]; cbn [Split]; [discriminate|].
  destruct (Ascii.eqb c sep); [discriminate|].
  destruct (Split t sep); discriminate.
Qed.

Lemma JoinWith_cons (piece : string) (rest : list string) (sep : string) :
  rest <> [] ->
  JoinWith (piece :: rest) sep = (piece ++ sep ++ JoinWith rest sep)%string.
Proof. destruct rest; [intros H; now destruct H | reflexivity]. Qed.

Lemma JoinWith_String (c : ascii) (piece : string) (rest : list string)
      (sep : string) :
  JoinWith (String c piece :: rest) sep
  = String c (JoinWith (piece :: rest) sep).
Proof. destruct rest; reflexivity. Qed.

(** X14: [strings.Split] on a one-byte separator, as [main] uses it on the
    value of [-ignore], cuts at every separator and only there: joining the
    pieces with the separator gives the string back, no piece holds the
    separator, and there is always at least one piece (the empty string
    gives one empty piece). *)
Theorem Split_JoinWith (s : string) (sep : ascii) :
  JoinWith (Split s sep) (String sep "") = s
  /\ Forall (fun piece => Contains piece (String sep "") = false)
            (Split s sep)
  /\ Split s sep <> [].
Proof.
  split; [|split]; [| |apply Split_not_nil].
  - induction s as [|c t IH]; [reflexivity|]. cbn [Split].
    destruct (Ascii.eqb_spec c sep) as [-> | Hc].
    + rewrite JoinWith_cons by apply Split_not_nil. now rewrite IH.
    + pose proof (Split_not_nil t sep) as Hne.
      destruct (Split t sep) as [|piece pieces]; [now destruct Hne|].
      rewrite JoinWith_String. now rewrite IH.
  - induction s as [|c t IH]; cbn [Split].
    + repeat constructor.
    + destruct (Ascii.eqb_spec c sep) as [-> | Hc].
      * constructor; [reflexivity | exact IH].
      * pose proof (Split_not_nil t sep) as Hne.
        destruct (Split t sep) as [|piece pieces]; [now destruct Hne|].
        inversion IH as [|? ? Hp Hrest]; subst. constructor; [|exact Hrest].
        cbn [Contains HasPrefix]. rewrite Hp.
        apply Ascii.eqb_neq in Hc. rewrite Ascii.eqb_sym, Hc. reflexivity.
Qed.

(** A separator at the end leaves an empty last piece. *)
Lemma Split_trailing (s : string) (sep : ascii) :
  exists piece pieces,
    Split (s ++ String sep "") sep = (piece :: pieces ++ [""])%list.
Proof.
  induction s as [|c t IH]; cbn [append Split].
  - rewrite Ascii.eqb_refl. exists "", []. reflexivity.
  - destruct IH as (piece & pieces & ->).
    destruct (Ascii.eqb c sep).
    + exists "", (piece :: pieces). reflexivity.
    + exists (String c piece), pieces. reflexivity.
Qed.

Section Flags.

Context {rt : Runtime}.

Lemma parseIgnoreFlag_empty_piece (ignoreFlag : string) :
  TrimSpace "" = "" ->
  is_empty ignoreFlag = false ->
  In "" (Split ignoreFlag ","%char) ->
  In "" (parseIgnoreFlag ignoreFlag).
Proof.
  intros Ht Hne Hin. unfold parseIgnoreFlag. rewrite Hne.
  rewrite <- Ht at 1. now apply in_map.
Qed.

(** X15: when the value of [-ignore] has an empty piece between its commas
    (a trailing comma is enough) and trimming leaves the empty string
    empty, the patterns of the capture hold the empty pattern, every path is
    ignored, and the walk records no entry at all, whatever the source
    holds. *)
Theorem ignore_flag_empty_piece (ignoreFlag : string) :
  TrimSpace "" = "" ->
  is_empty ignoreFlag = false ->
  In "" (Split ignoreFlag ","%char) ->
  forall st source,
    (forall p, shouldIgnore p (loadGitignore st source
                               ++ parseIgnoreFlag ignoreFlag) = true)
    /\ fst (WalkDir (loadGitignore st source ++ parseIgnoreFlag ignoreFlag)
                    st source) = [].
Proof.
  intros Ht Hne Hin st source.
  assert (Hall : forall p, shouldIgnore p (loadGitignore st source
                                           ++ parseIgnoreFlag ignoreFlag)
                           = true).
  { intros p. apply shouldIgnore_empty_pattern. apply in_or_app. right.
    now apply parseIgnoreFlag_empty_piece. }
  split; [exact Hall|].
  unfold WalkDir. destruct (Lstat st source) as [e|d]; [reflexivity|].
  destruct (walkDir (loadGitignore st source ++ parseIgnoreFlag ignoreFlag)
                    source "." d []) as [files r] eqn:E.
  pose proof (walkDir_recorded_at _ d source "." files r E) as Hrec.
  cbn [fst].
  assert (files = []) as ->.
  { destruct files as [|f files]; [reflexivity|].
    inversion Hrec as [|? ? [Hf _] _]; subst.
    rewrite Hall in Hf. discriminate. }
  destruct r; reflexivity.
Qed.

(** X16: [main] exits with status 0 exactly when the version was asked for,
    or there are at least three arguments of which the first is [clone] or
    [restore] and that operation, on the second and third, returned no
    error.  With the version flag, with fewer than three arguments or with
    another command it leaves the file system as it is. *)
Theorem main_exit_status (showVersion : bool) (ignoreFlag : string)
        (args : list string) (st : fs) :
  (snd (main showVersion ignoreFlag args st) = exitSuccess <->
   showVersion = true
   \/ exists command arg1 arg2 rest,
        args = command :: arg1 :: arg2 :: rest
        /\ ((command = "clone"
             /\ snd (cloneProject (parseIgnoreFlag ignoreFlag) arg1 arg2 st)
                = None)
            \/ (command = "restore"
                /\ snd (restoreProject arg1 arg2 st) = None)))
  /\ (showVersion = true \/ (length args < 3)%nat
      \/ (hd "" args <> "clone" /\ hd "" args <> "restore") ->
      fst (main showVersion ignoreFlag args st) = st).
Proof.
  unfold main, exitSuccess, exitFailure. split.
  - destruct showVersion; [split; auto|].
    destruct args as [|command [|arg1 [|arg2 rest]]]; cbn [snd];
      try (split; [discriminate|];
           intros [H | (? & ? & ? & ? & H & _)]; discriminate).
    destruct (String.eqb_spec command "clone") as [-> | Hc].
    { destruct (cloneProject (parseIgnoreFlag ignoreFlag) arg1 arg2 st)
        as [st' [e|]] eqn:E; cbn [snd]; split.
      - discriminate.
      - intros [H | (c & a1 & a2 & r & [= <- <- <- <-] & [[_ H] | [H _]])];
          try discriminate. rewrite E in H. discriminate.
      - intros _. right. exists "clone", arg1, arg2, rest.
        split; [reflexivity|]. left. rewrite E. auto.
      - reflexivity. }
    destruct (String.eqb_spec command "restore") as [-> | Hr].
    { destruct (restoreProject arg1 arg2 st) as [st' [e|]] eqn:E;
        cbn [snd]; split.
      - discriminate.
      - intros [H | (c & a1 & a2 & r & [= <- <- <- <-] & [[H _] | [_ H]])];
          try discriminate. rewrite E in H. discriminate.
      - intros _. right. exists "restore", arg1, arg2, rest.
        split; [reflexivity|]. right. rewrite E. auto.
      - reflexivity. }
    cbn [snd]. split; [discriminate|].
    intros [H | (c & a1 & a2 & r & [= <- <- <- <-] & [[H _] | [H _]])];
      [discriminate | now destruct Hc | now destruct Hr].
  - destruct showVersion; [reflexivity|].
    intros [H | [H | [H1 H2]]]; [discriminate | |].
    + destruct args as [|command [|arg1 [|arg2 rest]]]; try reflexivity.
      cbn [length] in H. lia.
    + destruct args as [|command [|arg1 [|arg2 rest]]]; try reflexivity.
      cbn [hd] in H1, H2. apply String.eqb_neq in H1, H2.
      now rewrite H1, H2.
Qed.

End Flags.

(** ** Patterns without operators *)

Lemma byte_eqb (a b : ascii) : (byte a =? byte b) = Ascii.eqb a b.
Proof.
  destruct (Ascii.eqb_spec a b) as [-> | Hab]; [apply Z.eqb_refl|].
  apply Z.eqb_neq. unfold byte. intros H. apply Hab.
  apply N2Z.inj in H.
  rewrite <- (ascii_N_embedding a), <- (ascii_N_embedding b). now rewrite H.
Qed.

Lemma literal_cons (c : ascii) (t : string) :
  literal (String c t) = true ->
  Ascii.eqb c "*" = false /\ Ascii.eqb c "?" = false
  /\ Ascii.eqb c "[" = false /\ Ascii.eqb c "\"%char = false
  /\ literal t = true.
Proof.
  cbn [literal]. rewrite !andb_true_iff, !negb_true_iff. tauto.
Qed.

Lemma matchChunkLoop_literal (chunk : string) :
  literal chunk = true ->
  forall fuel s failed,
    (String.length chunk < fuel)%nat ->
    matchChunkLoop fuel chunk s failed
    = Ok (if failed then None
          else if HasPrefix s chunk
               then Some (from (String.length chunk) s) else None).
Proof.
  induction chunk as [|c t IH]; intros Hlit [|fuel] s failed Hfuel;
    try (cbn [String.length] in Hfuel; lia).
  - cbn. now destruct failed.
  - apply literal_cons in Hlit. destruct Hlit as (H1 & H2 & H3 & H4 & Ht).
    cbn [matchChunkLoop]. rewrite H2, H3, H4.
    cbn [String.length] in Hfuel.
    destruct failed; cbn [orb].
    + rewrite IH by (auto; lia). reflexivity.
    + destruct s as [|d s']; cbn [is_empty].
      * rewrite IH by (auto; lia). reflexivity.
      * rewrite IH by (auto; lia).
        cbn [from at_ String.get HasPrefix String.length].
        rewrite byte_eqb. destruct (Ascii.eqb c d); reflexivity.
Qed.

Lemma scanLoop_literal (pattern : string) :
  literal pattern = true ->
  forall inrange, scanLoop inrange pattern = (pattern, "").
Proof.
  induction pattern as [|c t IH]; intros Hlit inrange; [reflexivity|].
  apply literal_cons in Hlit. destruct Hlit as (H1 & H2 & H3 & H4 & Ht).
  cbn [scanLoop]. rewrite H4, H3, H1. cbn [andb].
  destruct (Ascii.eqb c "]"); now rewrite IH.
Qed.

Lemma eqb_HasPrefix (pattern name : string) :
  String.eqb pattern name
  = HasPrefix name pattern && is_empty (from (String.length pattern) name).
Proof.
  revert name; induction pattern as [|c t IH]; intros [|d name];
    try reflexivity.
  cbn [String.eqb HasPrefix String.length from]. rewrite IH.
  now destruct (Ascii.eqb c d).
Qed.

(** A pattern without operators matches its own text only, and is never
    malformed. *)
Lemma Match_literal (pattern name : string) :
  literal pattern = true -> Match pattern name = Ok (String.eqb pattern name).
Proof.
  intros Hlit. destruct pattern as [|c t].
  - now destruct name.
  - pose proof (literal_cons _ _ Hlit) as (H1 & _).
    unfold Match. cbn [String.length MatchLoop is_empty].
    unfold scanChunk. cbn [skipStars]. rewrite H1.
    rewrite (scanLoop_literal _ Hlit). cbn [andb is_empty negb orb].
    unfold matchChunk. rewrite (matchChunkLoop_literal _ Hlit) by lia.
    rewrite eqb_HasPrefix.
    destruct (HasPrefix name (String c t)); [|reflexivity].
    rewrite orb_false_r. cbn [andb].
    destruct (is_empty (from (String.length (String c t)) name));
      reflexivity.
Qed.

Lemma stripTrailing_empty (path : string) :
  stripTrailing path = "" ->
  path = "" \/ exists t, path = String Separator t.
Proof.
  destruct path as [|c t]; [auto|]. cbn [stripTrailing].
  destruct (IsPathSeparator c) eqn:Hc; cbn [andb].
  - intros _. right. exists t. unfold IsPathSeparator in Hc.
    apply Ascii.eqb_eq in Hc. now subst.
  - discriminate.
Qed.

Lemma stripTrailing_prefix (path : string) :
  exists b, path = (stripTrailing path ++ b)%string.
Proof.
  induction path as [|c t [b IH]]; [exists ""; reflexivity|].
  cbn [stripTrailing].
  destruct (IsPathSeparator c && is_empty (stripTrailing t)).
  - exists (String c t). reflexivity.
  - exists b. cbn. now rewrite <- IH.
Qed.

Lemma stripTrailing_no_trailing (path a : string) :
  stripTrailing path <> (a ++ String Separator "")%string.
Proof.
  revert a; induction path as [|c t IH]; intros a; cbn [stripTrailing].
  - destruct a; discriminate.
  - destruct (IsPathSeparator c && is_empty (stripTrailing t)) eqn:E.
    + destruct a; discriminate.
    + destruct a as [|c' a]; cbn [append].
      * intros [= -> Ht]. rewrite Ht in E. discriminate E.
      * intros [= _ Ht]. exact (IH _ Ht).
Qed.

Lemma lastElement_suffix (path : string) :
  exists a, path = (a ++ lastElement path)%string.
Proof.
  induction path as [|c t [a IH]]; [exists ""; reflexivity|].
  cbn [lastElement]. destruct (hasSeparator t).
  - exists (String c a). cbn. now rewrite <- IH.
  - destruct (IsPathSeparator c).
    + exists (String c ""). reflexivity.
    + exists "". reflexivity.
Qed.

Lemma lastElement_empty (path : string) :
  lastElement path = "" ->
  path = "" \/ exists a, path = (a ++ String Separator "")%string.
Proof.
  induction path as [|c t IH]; [auto|]. cbn [lastElement].
  destruct (hasSeparator t) eqn:Hs.
  - intros H. destruct (IH H) as [-> | [a ->]]; [discriminate Hs|].
    right. exists (String c a). reflexivity.
  - destruct (IsPathSeparator c) eqn:Hc; [|discriminate].
    intros ->. right. exists "". unfold IsPathSeparator in Hc.
    apply Ascii.eqb_eq in Hc. now subst.
Qed.

(** The base name of a path that is not empty is part of the path. *)
Lemma Base_Contains (path : string) :
  is_empty path = false -> Contains path (Base path) = true.
Proof.
  intros Hne. unfold Base. rewrite Hne. apply Contains_spec.
  destruct (stripTrailing_prefix path) as [b Hb].
  destruct (lastElement_suffix (stripTrailing path)) as [a Ha].
  destruct (is_empty (lastElement (stripTrailing path))) eqn:E.
  - destruct (lastElement (stripTrailing path)) eqn:El; [|discriminate].
    destruct (lastElement_empty _ El) as [Hs | [a' Hs]].
    + destruct (stripTrailing_empty _ Hs) as [-> | [t ->]];
        [discriminate|]. exists "", t. reflexivity.
    + exfalso. exact (stripTrailing_no_trailing _ _ Hs).
  - exists a, b. rewrite <- string_app_assoc, <- Ha. exact Hb.
Qed.

(** X17: a pattern without the operators [*], [?], [\[] and the backslash
    is plain substring matching: with such a pattern in front, a path that
    is not empty is ignored exactly when it contains the pattern or the
    rest of the patterns ignores it.  So [node_modules] also ignores
    [my_node_modules.txt], and [.git] ignores [.gitignore]. *)
Theorem shouldIgnore_literal (pattern p : string) (P : list string) :
  literal pattern = true ->
  is_empty p = false ->
  shouldIgnore p (pattern :: P) = Contains p pattern || shouldIgnore p P.
Proof.
  intros Hlit Hne. cbn [shouldIgnore].
  rewrite (Match_literal _ _ Hlit), ToSlash_id.
  destruct (String.eqb_spec pattern (Base p)) as [-> | _].
  - now rewrite (Base_Contains _ Hne).
  - now destruct (Contains p pattern).
Qed.

Lemma shouldIgnore_literal_witness :
  literal ".git" = true /\ is_empty ".gitignore" = false
  /\ shouldIgnore ".gitignore" [".git"; "*.log"]
     = Contains ".gitignore" ".git" || shouldIgnore ".gitignore" ["*.log"].
Proof.
  split; [reflexivity | split; [reflexivity|]].
  exact (shouldIgnore_literal ".git" ".gitignore" ["*.log"] eq_refl eq_refl).
Defined.

(** ** Runs of the further properties *)

Lemma walkDir_parent_first_witness :
  let rt := Scripted.runtime (Scripted.source (inl ErrNotExist) []) in
  let P := [".git"; "*.log"] in
  let entries :=
    [File "a.txt" (Scripted.regular 1) (inr "a");
     File "b.log" (Scripted.regular 1) (inr "b");
     Dir "sub" Scripted.directory
         [File "c.txt" (Scripted.regular 1) (inr "c")] None] in
  String.eqb "lib" "." = false
  /\ shouldIgnore "lib" P = false
  /\ fst (walkDir P "src/lib" "lib"
                  (Dir "lib" Scripted.directory entries None) [])
     = [mkFileInfo "lib" "" true 493;
        mkFileInfo "lib/a.txt" "a" false 420;
        mkFileInfo "lib/sub" "" true 493;
        mkFileInfo "lib/sub/c.txt" "c" false 420].
Proof.
  intros rt P entries.
  assert (H1 : String.eqb "lib" "." = false) by reflexivity.
  assert (H2 : shouldIgnore "lib" P = false) by reflexivity.
  split; [exact H1 | split; [exact H2|]].
  destruct (walkDir_parent_first (rt := rt) P "src/lib" "lib" "lib"
              (mkFileStat true 4096 493) entries None H1 H2)
    as (rest & Hrest & _).
  reflexivity.
Defined.

Lemma restoreProject_plan_witness :
  let rt := Scripted.runtime (Scripted.withDestination Scripted.absent) in
  Stat [] "out" = inl ErrNotExist
  /\ fst (restoreProject "snapshot.json" "out" [])
     = [Scripted.OpMkdirAll "out" 493; Scripted.OpMkdirAll "out/d" 0].
Proof.
  intros rt.
  assert (Hs : Stat [] "out" = inl ErrNotExist) by reflexivity.
  split; [exact Hs|].
  destruct (restoreProject_plan (rt := rt)
              "snapshot.json" "out" [] "doc"
              (mkProjectSnapshot "1.0.0" (Some [mkFileInfo "d" "" true 0]))
              ErrNotExist eq_refl eq_refl eq_refl Hs) as (H & _).
  exact H.
Defined.

Lemma ignore_flag_empty_piece_witness :
  let rt := Scripted.runtime
              (Scripted.source (inl ErrNotExist) Scripted.scenario) in
  In "" (Split "*.tmp," ","%char)
  /\ shouldIgnore "keep.txt" (loadGitignore [] "src"
                              ++ parseIgnoreFlag "*.tmp,") = true
  /\ fst (WalkDir (loadGitignore [] "src" ++ parseIgnoreFlag "*.tmp,")
                  [] "src") = [].
Proof.
  intros rt.
  assert (Hin : In "" (Split "*.tmp," ","%char))
    by (right; left; reflexivity).
  split; [exact Hin|].
  destruct (ignore_flag_empty_piece (rt := rt) "*.tmp," eq_refl eq_refl Hin
                                    [] "src") as [H1 H2].
  split; [apply H1 | exact H2].
Defined.

(** ** No path twice *)

Lemma string_app_inv_head (a x y : string) :
  (a ++ x)%string = (a ++ y)%string -> x = y.
Proof. induction a as [|c a IH]; cbn; [auto | intros [= H]; auto]. Qed.

Lemma string_length_app (a b : string) :
  String.length (a ++ b) = (String.length a + String.length b)%nat.
Proof. induction a as [|c a IH]; cbn; [reflexivity | now rewrite IH]. Qed.

Lemma HasPrefix_longer (s : string) (c : ascii) :
  HasPrefix s (s ++ String c "") = false.
Proof.
  destruct (HasPrefix s (s ++ String c "")) eqn:E; [|reflexivity].
  apply HasPrefix_spec in E. destruct E as [t Ht].
  apply (f_equal String.length) in Ht.
  rewrite !string_length_app in Ht. cbn in Ht. lia.
Qed.

(** Two names without separator that are followed by nothing or by a
    separator, and give the same string, are the same name. *)
Lemma name_then_separator (n1 : string) :
  forall n2 s1 s2,
    hasSeparator n1 = false -> hasSeparator n2 = false ->
    (s1 = "" \/ HasPrefix s1 (String Separator "") = true) ->
    (s2 = "" \/ HasPrefix s2 (String Separator "") = true) ->
    (n1 ++ s1)%string = (n2 ++ s2)%string -> n1 = n2.
Proof.
  assert (Hsep : forall n s,
             hasSeparator n = false ->
             HasPrefix (n ++ s) (String Separator "") = true -> n = "").
  { intros [|c n] s Hn; [reflexivity|].
    cbn [append HasPrefix hasSeparator] in *.
    apply orb_false_iff in Hn. destruct Hn as [Hc _].
    unfold IsPathSeparator in Hc. rewrite Ascii.eqb_sym, Hc. discriminate. }
  induction n1 as [|c n1 IH]; intros n2 s1 s2 H1 H2 T1 T2 E; cbn [append] in E.
  - destruct T1 as [-> | T1].
    + destruct n2; [reflexivity | discriminate].
    + rewrite E in T1. symmetry. exact (Hsep _ _ H2 T1).
  - destruct n2 as [|c' n2]; cbn [append] in E.
    + destruct T2 as [-> | T2]; [discriminate|].
      rewrite <- E in T2.
      exact (Hsep (String c n1) s1 H1 T2).
    + injection E as -> E. f_equal.
      cbn [hasSeparator] in H1, H2. apply orb_false_iff in H1, H2.
      exact (IH n2 s1 s2 (proj2 H1) (proj2 H2) T1 T2 E).
Qed.

Lemma at_or_below_tail (r : string) (f : FileInfo) :
  Path f = r \/ below r f ->
  exists s, Path f = (r ++ s)%string
            /\ (s = "" \/ HasPrefix s (String Separator "") = true).
Proof.
  intros [H | H].
  - exists "". split; [|auto]. rewrite H. clear.
    induction r; cbn; [reflexivity | now f_equal].
  - unfold below in H. apply HasPrefix_spec in H. destruct H as [t Ht].
    exists (String Separator t).
    split; [|right; apply HasPrefix_spec; exists t; reflexivity].
    rewrite Ht. apply string_app_assoc.
Qed.

Lemma relJoin_base (rel name : string) :
  relJoin rel name
  = ((if String.eqb rel "." then "" else rel ++ String Separator "")
     ++ name)%string.
Proof.
  unfold relJoin. destruct (String.eqb rel "."); [reflexivity|].
  now rewrite string_app_assoc.
Qed.

(** Entries with different names do not share a path at or below them. *)
Lemma relJoin_disjoint (rel n1 n2 : string) (f1 f2 : FileInfo) :
  hasSeparator n1 = false -> hasSeparator n2 = false ->
  Path f1 = relJoin rel n1 \/ below (relJoin rel n1) f1 ->
  Path f2 = relJoin rel n2 \/ below (relJoin rel n2) f2 ->
  Path f1 = Path f2 -> n1 = n2.
Proof.
  intros H1 H2 A1 A2 E.
  apply at_or_below_tail in A1, A2.
  destruct A1 as (s1 & E1 & T1), A2 as (s2 & E2 & T2).
  rewrite E1, E2, !relJoin_base, !string_app_assoc in E.
  apply string_app_inv_head in E.
  exact (name_then_separator n1 n2 s1 s2 H1 H2 T1 T2 E).
Qed.

Section NoDuplicates.

Context {rt : Runtime}.
Variable P : list string.

Lemma walkDir_acc_all (entries : list node) :
  Forall (fun d => forall path rel files,
              walkDir P path rel d files
              = ((files ++ fst (walkDir P path rel d []))%list,
                 snd (walkDir P path rel d []))) entries.
Proof.
  induction entries; constructor; auto. intros; apply walkDir_acc.
Qed.

(** What the loop over a listing records comes from one of its entries,
    at or below it. *)
Lemma walkEntries_origin path rel entries :
  Forall (fun d => String.eqb (relJoin rel (Name d)) "." = false) entries ->
  Forall (fun f => exists d,
              In d entries
              /\ (Path f = relJoin rel (Name d)
                  \/ below (relJoin rel (Name d)) f))
         (fst (walkEntries (walkDir P) path rel entries [])).
Proof.
  induction 1 as [|d1 rest Hd1 _ IH]; cbn [walkEntries fst].
  { constructor. }
  destruct (walkDir P (Join path (Name d1)) (relJoin rel (Name d1)) d1 [])
    as [got r1] eqn:E1.
  assert (B1 : Forall (fun f => exists d,
                          In d (d1 :: rest)
                          /\ (Path f = relJoin rel (Name d)
                              \/ below (relJoin rel (Name d)) f)) got).
  { pose proof (walkDir_at_or_below P d1 _ _ _ _ Hd1 E1) as H.
    eapply Forall_impl; [|exact H]. intros f Hf. exists d1.
    split; [left; reflexivity | exact Hf]. }
  destruct r1; cbn [fst]; try exact B1.
  rewrite (walkEntries_acc P path rel rest (walkDir_acc_all rest)).
  cbn [fst]. apply Forall_app. split; [exact B1|].
  eapply Forall_impl; [|exact IH].
  intros f (d & Hin & Hf). exists d. split; [right; exact Hin | exact Hf].
Qed.

Lemma walkEntries_NoDup path rel entries :
  NoDup (map Name entries) ->
  Forall (fun d => hasSeparator (Name d) = false) entries ->
  Forall (fun d => String.eqb (relJoin rel (Name d)) "." = false) entries ->
  Forall (fun d => forall path rel,
              NoDup (map Path (fst (walkDir P path rel d [])))) entries ->
  NoDup (map Path (fst (walkEntries (walkDir P) path rel entries []))).
Proof.
  intros Hnames Hsep Hdot Hall.
  induction entries as [|d1 rest IH]; cbn [walkEntries fst].
  { constructor. }
  cbn [map] in Hnames.
  inversion Hnames as [|? ? Hnotin Hnames']; subst.
  inversion Hsep as [|? ? Hsep1 Hsep']; subst.
  inversion Hdot as [|? ? Hdot1 Hdot']; subst.
  inversion Hall as [|? ? Hall1 Hall']; subst.
  specialize (IH Hnames' Hsep' Hdot' Hall').
  pose proof (Hall1 (Join path (Name d1)) (relJoin rel (Name d1))) as N1.
  destruct (walkDir P (Join path (Name d1)) (relJoin rel (Name d1)) d1 [])
    as [got r1] eqn:E1. cbn [fst] in N1.
  destruct r1; cbn [fst]; try exact N1.
  rewrite (walkEntries_acc P path rel rest (walkDir_acc_all rest)).
  cbn [fst]. rewrite map_app.
  pose proof (walkDir_at_or_below P d1 _ _ _ _ Hdot1 E1) as A1.
  pose proof (walkEntries_origin path rel rest Hdot') as A2.
  rewrite Forall_forall in A1, A2, Hsep'.
  assert (Hdisj : forall x, In x (map Path got) ->
                            In x (map Path
                                    (fst (walkEntries (walkDir P) path rel
                                                      rest []))) -> False).
  { intros x Hx1 Hx2. apply in_map_iff in Hx1, Hx2.
    destruct Hx1 as (f1 & <- & Hf1), Hx2 as (f2 & E & Hf2).
    destruct (A2 f2 Hf2) as (d & Hin & Hd).
    apply Hnotin. apply in_map_iff. exists d. split; [|exact Hin].
    symmetry.
    exact (relJoin_disjoint rel (Name d1) (Name d) f1 f2 Hsep1
                            (Hsep' d Hin) (A1 f1 Hf1) Hd (eq_sym E)). }
  clear - N1 IH Hdisj. induction got as [|f got IHg]; cbn [map app].
  - exact IH.
  - cbn [map] in N1, Hdisj. inversion N1 as [|? ? Hf Hgot]; subst.
    constructor.
    + intros Hin. apply in_app_or in Hin. destruct Hin as [Hin | Hin].
      * exact (Hf Hin).
      * exact (Hdisj _ (or_introl eq_refl) Hin).
    + apply IHg; [exact Hgot|]. intros x Hx. apply Hdisj. now right.
Qed.

(** X18: when every directory of the tree lists pairwise different names,
    without separator and other than ["."], no two entries of the snapshot
    have the same path. *)
Theorem walkDir_NoDup (d : node) :
  WellNamed d ->
  forall path rel, NoDup (map Path (fst (walkDir P path rel d []))).
Proof.
  induction d as [name info data | name info entries readdir IH]
    using node_induction; intros Hwn path rel; rewrite walkDir_eq.
  - pose proof (walkFn_at P path rel (File name info data) None) as Hat.
    destruct (walkFn P path rel (File name info data) None [])
      as [got r] eqn:E.
    assert (Hlen : (length got <= 1)%nat).
    { revert E. unfold walkFn.
      repeat match goal with
             | |- context [match ?x with _ => _ end] => destruct x
             end; intros [= <- _]; cbn; lia. }
    assert (N : NoDup (map Path got)).
    { destruct got as [|f [|g got]]; cbn in Hlen; try lia;
        repeat constructor. intros []. }
    destruct r; cbn [NodeIsDir fst]; exact N.
  - inversion Hwn as [|? ? ? ? Hnames Hgood Hsub]; subst.
    assert (Hsep : Forall (fun d => hasSeparator (Name d) = false) entries)
      by (eapply Forall_impl; [|exact Hgood]; intros ? [? _]; assumption).
    assert (Hall : Forall (fun d => forall path rel,
                       NoDup (map Path (fst (walkDir P path rel d []))))
                          entries).
    { rewrite Forall_forall in IH, Hsub. apply Forall_forall.
      intros d Hin. exact (IH d Hin (Hsub d Hin)). }
    unfold walkFn.
    destruct (String.eqb rel ".") eqn:Hrel.
    + destruct readdir as [e|]; [constructor|].
      apply walkEntries_NoDup; auto.
      apply String.eqb_eq in Hrel. subst rel.
      eapply Forall_impl; [|exact Hgood]. intros d [_ Hd]. exact Hd.
    + destruct (shouldIgnore rel P); [constructor|].
      cbn [Info NodeIsDir negb].
      destruct info as [e|info]; [constructor|].
      cbn [app]. destruct readdir as [e|]; [repeat constructor; intros []|].
      rewrite (walkEntries_acc P path rel entries (walkDir_acc_all entries)).
      cbn [fst app map Path]. constructor.
      * rewrite ToSlash_id. intros Hin. apply in_map_iff in Hin.
        destruct Hin as (f & Hf & Hin).
        pose proof (walkEntries_below P path rel entries Hrel) as Hb.
        rewrite Forall_forall in Hb. specialize (Hb f Hin).
        unfold below in Hb. rewrite Hf, HasPrefix_longer in Hb.
        discriminate.
      * apply walkEntries_NoDup; auto.
        apply Forall_forall. intros d _.
        exact (proj1 (relJoin_below rel (Name d) Hrel)).
Qed.

End NoDuplicates.

Lemma walkDir_NoDup_witness :
  let rt := Scripted.runtime (Scripted.source (inl ErrNotExist) []) in
  let d := Dir "src" Scripted.directory Scripted.scenario None in
  WellNamed d
  /\ NoDup (map Path (fst (walkDir ["*.log"] "src" "." d []))).
Proof.
  intros rt d.
  assert (W : WellNamed d).
  { constructor.
    - repeat constructor; cbn; intuition discriminate.
    - repeat constructor.
    - repeat constructor; cbn; intuition discriminate. }
  split; [exact W | exact (walkDir_NoDup ["*.log"] d W "src" ".")].
Defined.

(** ** The walk fails on I/O errors only *)

(** X19: the walk of [cloneProject] returns an error exactly when an entry
    that it reaches and does not ignore has an I/O error; a tree without
    such an error is always captured. *)
Theorem WalkDir_error_iff_fault {rt : Runtime} (P : list string) (st : fs)
        (source : string) :
  snd (WalkDir P st source) <> None <-> exists p, WalkFault P st source p.
Proof.
  split.
  - unfold WalkDir, WalkFault. destruct (Lstat st source) as [e|d].
    + intros _. exists source. reflexivity.
    + destruct (walkDir P source "." d []) as [files [| |e]] eqn:E;
        cbn [snd]; try (intros H; now destruct H).
      intros _. destruct (walkDir_Fail_sound P d _ _ _ _ _ E) as (p & Hp & _).
      exists p. exact Hp.
  - intros [p Hp].
    destruct (WalkDir_fails_at_fault P st source p Hp)
      as (files & e & p' & Hw & _).
    rewrite Hw. discriminate.
Qed.

(** ** A star in front of plain text *)

Lemma from_length_app (a b : string) : from (String.length a) (a ++ b) = b.
Proof. induction a as [|c a IH]; [reflexivity | exact IH]. Qed.

Lemma string_app_nil_r (a : string) : (a ++ "")%string = a.
Proof. induction a as [|c a IH]; cbn; [reflexivity | now rewrite IH]. Qed.

Lemma matchChunk_literal (chunk s : string) :
  literal chunk = true ->
  matchChunk chunk s
  = Ok (if HasPrefix s chunk then Some (from (String.length chunk) s)
        else None).
Proof.
  intros Hlit. unfold matchChunk.
  now rewrite (matchChunkLoop_literal _ Hlit) by lia.
Qed.

Lemma HasPrefix_from (s chunk : string) :
  HasPrefix s chunk = true ->
  s = (chunk ++ from (String.length chunk) s)%string.
Proof.
  intros H. apply HasPrefix_spec in H. destruct H as [t ->].
  now rewrite from_length_app.
Qed.

Lemma HasPrefix_refl (s : string) : HasPrefix s s = true.
Proof. apply HasPrefix_spec. exists "". now rewrite string_app_nil_r. Qed.

Lemma from_length (s : string) : from (String.length s) s = "".
Proof. induction s as [|c s IH]; [reflexivity | exact IH]. Qed.

(** The loop over the bytes that a star may take, for a last chunk of plain
    text: it finds the chunk at the end of the name, after at least one
    byte and no separator. *)
Lemma starLoop_literal (chunk : string) :
  literal chunk = true ->
  forall name,
    (exists a, is_empty a = false /\ hasSeparator a = false
               /\ name = (a ++ chunk)%string)
    -> starLoop chunk true name = Found "".
Proof.
  intros Hlit name (a & Hne & Hsep & ->).
  induction a as [|c a IH]; [discriminate|].
  cbn [append starLoop]. cbn [hasSeparator] in Hsep.
  apply orb_false_iff in Hsep. destruct Hsep as [Hc Ha]. rewrite Hc.
  rewrite (matchChunk_literal _ _ Hlit).
  destruct a as [|c' a].
  - cbn [append]. now rewrite HasPrefix_refl, from_length.
  - specialize (IH eq_refl Ha).
    destruct (HasPrefix (String c' a ++ chunk) chunk); [|exact IH].
    cbn [andb].
    destruct (from (String.length chunk) (String c' a ++ chunk));
      [reflexivity | exact IH].
Qed.

Lemma starLoop_literal_inv (chunk : string) :
  literal chunk = true ->
  forall name t,
    starLoop chunk true name = Found t ->
    t = "" /\ exists a, is_empty a = false /\ hasSeparator a = false
                        /\ name = (a ++ chunk)%string.
Proof.
  intros Hlit. induction name as [|c name IH]; intros t; cbn [starLoop];
    [discriminate|].
  destruct (IsPathSeparator c) eqn:Hc; [discriminate|].
  rewrite (matchChunk_literal _ _ Hlit).
  assert (Hrec : starLoop chunk true name = Found t ->
                 t = "" /\ exists a, is_empty a = false
                                     /\ hasSeparator a = false
                                     /\ String c name = (a ++ chunk)%string).
  { intros H. destruct (IH _ H) as (-> & a & _ & Ha & ->).
    split; [reflexivity|].
    exists (String c a). cbn [hasSeparator]. rewrite Hc, Ha. auto. }
  destruct (HasPrefix name chunk) eqn:Hp; [|exact Hrec].
  cbn [andb].
  destruct (from (String.length chunk) name) eqn:F; cbn [is_empty negb];
    [|exact Hrec].
  intros [= <-]. split; [reflexivity|].
  exists (String c ""). cbn [hasSeparator append]. rewrite Hc.
  repeat split. f_equal.
  rewrite (HasPrefix_from _ _ Hp), F. apply string_app_nil_r.
Qed.

Lemma starLoop_literal_not_Bad (chunk name : string) (last : bool) :
  literal chunk = true -> starLoop chunk last name <> Bad.
Proof.
  intros Hlit. induction name as [|c name IH]; cbn [starLoop];
    [discriminate|].
  destruct (IsPathSeparator c); [discriminate|].
  rewrite (matchChunk_literal _ _ Hlit).
  destruct (HasPrefix name chunk); [|exact IH].
  destruct (last && negb (is_empty (from (String.length chunk) name)));
    [exact IH | discriminate].
Qed.

Lemma Contains_separator (s : string) :
  Contains s (String Separator "") = hasSeparator s.
Proof.
  induction s as [|c s IH]; [reflexivity|].
  cbn [Contains HasPrefix hasSeparator]. rewrite IH.
  unfold IsPathSeparator. rewrite Ascii.eqb_sym.
  now destruct (Ascii.eqb c Separator).
Qed.

(** A star followed by plain text matches the names that end with the text
    and have no separator before it; the pattern is never malformed. *)
Lemma Match_star_literal (text name : string) :
  literal text = true ->
  exists matched,
    Match (String "*" text) name = Ok matched
    /\ (matched = true <->
        exists a, hasSeparator a = false /\ name = (a ++ text)%string).
Proof.
  intros Hlit. unfold Match. cbn [String.length MatchLoop is_empty].
  unfold scanChunk. cbn [skipStars]. rewrite Ascii.eqb_refl.
  assert (Hskip : snd (skipStars text) = text).
  { apply skipStars_no_star. destruct text as [|c t]; [reflexivity|].
    pose proof (literal_cons _ _ Hlit) as (H1 & _). cbn [skipStars].
    now rewrite H1. }
  rewrite Hskip, (scanLoop_literal _ Hlit). cbn [andb].
  destruct (is_empty text) eqn:Hempty.
  - destruct text; [|discriminate]. eexists. split; [reflexivity|].
    rewrite Contains_separator, negb_true_iff. split.
    + intros H. exists name. now rewrite string_app_nil_r.
    + intros (a & Ha & ->). now rewrite string_app_nil_r.
  - cbn [is_empty negb orb].
    rewrite (matchChunk_literal _ _ Hlit).
    assert (Hstar : exists matched,
               match starLoop text true name with
               | Found t0 => MatchLoop (S (String.length text)) "" t0
               | Bad => ErrBadPattern
               | NotFound => checkRest (S (String.length text)) ""
               end = Ok matched
               /\ (matched = true <->
                   exists a, is_empty a = false /\ hasSeparator a = false
                             /\ name = (a ++ text)%string)).
    { destruct (starLoop text true name) as [t0| |] eqn:E.
      - destruct (starLoop_literal_inv _ Hlit _ _ E) as (-> & Ha).
        exists true. split; [reflexivity|]. split; auto.
      - exfalso. exact (starLoop_literal_not_Bad _ _ _ Hlit E).
      - exists false. split; [reflexivity|]. split; [discriminate|].
        intros H. rewrite (starLoop_literal _ Hlit _ H) in E. discriminate. }
    destruct Hstar as (m & Hm & Hiff).
    destruct (HasPrefix name text) eqn:Hp.
    + destruct (from (String.length text) name) as [|c0 s0] eqn:F;
        cbn [is_empty].
      * exists true. split; [reflexivity|]. split; [|reflexivity].
        intros _. exists "". split; [reflexivity|].
        rewrite (HasPrefix_from _ _ Hp), F. cbn [append].
        apply string_app_nil_r.
      * exists m. split; [exact Hm|]. rewrite Hiff. split.
        -- intros (a & _ & Ha & Hn). eauto.
        -- intros (a & Ha & Hn). exists a. repeat split; auto.
           destruct a; [|reflexivity]. cbn [append] in Hn. subst name.
           rewrite from_length in F. discriminate.
    + exists m. split; [exact Hm|]. rewrite Hiff. split.
      * intros (a & _ & Ha & Hn). eauto.
      * intros (a & Ha & Hn). exists a. repeat split; auto.
        destruct a; [|reflexivity]. cbn [append] in Hn. subst name.
        rewrite HasPrefix_refl in Hp. discriminate.
Qed.

(** X20: a star followed by plain text, like [*.log], ignores a path exactly
    when its base name ends with the text (with no separator before it), or
    the path contains the pattern itself, star included, or the rest of the
    patterns ignores it. *)
Theorem shouldIgnore_star_literal (text p : string) (P : list string) :
  literal text = true ->
  (shouldIgnore p (String "*" text :: P) = true <->
   (exists a, hasSeparator a = false /\ Base p = (a ++ text)%string)
   \/ Contains p (String "*" text) = true
   \/ shouldIgnore p P = true).
Proof.
  intros Hlit. cbn [shouldIgnore].
  destruct (Match_star_literal text (Base p) Hlit) as (m & -> & Hm).
  rewrite ToSlash_id. destruct m.
  - split; [|reflexivity]. intros _. left. now apply Hm.
  - destruct (Contains p (String "*" text)).
    + split; auto.
    + split; [auto|]. intros [H | [H | H]]; [|discriminate | exact H].
      apply Hm in H. discriminate.
Qed.

Lemma shouldIgnore_star_literal_witness :
  literal ".log" = true
  /\ shouldIgnore "logs/app.log" ["*.log"] = true
  /\ exists a, hasSeparator a = false
               /\ Base "logs/app.log" = (a ++ ".log")%string.
Proof.
  split; [reflexivity | split; [reflexivity|]].
  assert (H : shouldIgnore "logs/app.log" ["*.log"] = true) by reflexivity.
  destruct (proj1 (shouldIgnore_star_literal ".log" "logs/app.log" []
                                             eq_refl) H)
    as [Ha | [Hc | Hr]]; [exact Ha | discriminate Hc | discriminate Hr].
Defined.
